(** * filetree: file and directory trees and their comparison

    A shallow embedding of [filetree/filetree.py].  Python strings are
    [string] (byte strings; the order of UTF-8 byte strings is the order of
    their code points), Python lists are [list], Python sets are [gset],
    exceptions are the left summand of a sum, and the calls into the
    operating system and into [warnings] are recorded in a log of events. *)

From Stdlib Require Import Ascii String.
From Stdlib.Strings Require Import Byte.
From stdpp Require Import gmap strings list sorting.

(** ** Python's [str] methods used by the module *)

Module Str.

(** [s.startswith(p)] *)
Definition startswith (p s : string) : bool := String.prefix p s.

(** [s.endswith(p)] *)
Fixpoint endswith (p s : string) : bool :=
  if String.eqb s p then true
  else match s with
       | "" => false
       | String _ s' => endswith p s'
       end.

(** [s[0:-1]] *)
Fixpoint drop_last (s : string) : string :=
  match s with
  | "" => ""
  | String c "" => ""
  | String c s' => String c (drop_last s')
  end.

(** [s[n:]] *)
Fixpoint slice_from (n : nat) (s : string) : string :=
  match n, s with
  | O, _ => s
  | S _, "" => ""
  | S k, String _ s' => slice_from k s'
  end.

(** [s.split(sep)] for a separator of one character *)
Fixpoint split (sep : ascii) (s : string) : list string :=
  match s with
  | "" => [""]
  | String c s' =>
      if Ascii.eqb c sep then "" :: split sep s'
      else match split sep s' with
           | [] => [String c ""]
           | w :: ws => String c w :: ws
           end
  end.

(** [sep.join(l)] *)
Fixpoint join (sep : string) (l : list string) : string :=
  match l with
  | [] => ""
  | [w] => w
  | w :: ws => w +:+ sep +:+ join sep ws
  end.

(** [c in s] for a character [c] *)
Fixpoint contains_char (c : ascii) (s : string) : bool :=
  match s with
  | "" => false
  | String d s' => Ascii.eqb d c || contains_char c s'
  end.

End Str.

(** ** Exceptions and the log of effects *)

Inductive exn :=
  | OSError            (* a filesystem call failed *)
  | IndexError         (* list index out of range *)
  | UnboundLocalError  (* a local variable read before assignment *)
  | re_error           (* [re.error]: the pattern does not compile *)
  | ValueError.        (* a path with an embedded NUL handed to the system *)

Inductive event :=
  | EWarn (category message : string)   (* [warnings.warn] *)
  | EOpen (path : string).              (* [open(path, 'rb')] *)

(** A computation with a log of events that returns or raises. *)
Definition IO (A : Type) : Type := list event * (exn + A).

Definition ret {A} (a : A) : IO A := ([], inr a).
Definition raise {A} (e : exn) : IO A := ([], inl e).
Definition emit (ev : event) : IO unit := ([ev], inr tt).
Definition bind {A B} (m : IO A) (f : A -> IO B) : IO B :=
  match m with
  | (l, inl e) => (l, inl e)
  | (l, inr a) => let '(l', r) := f a in (l ++ l', r)
  end.

Notation "'let*' x ':=' m 'in' k" := (bind m (fun x => k))
  (at level 10, x name, m at level 100, k at level 200).
Notation "m ';;' k" := (bind m (fun _ => k))
  (at level 100, k at level 200).

(** ** The trees *)

Inductive tree_class := Basetree_cls | Filetree_cls | Dirtree_cls.

Global Instance tree_class_eq_dec : EqDecision tree_class.
Proof. solve_decision. Defined.

Record Tree := mkTree {
  cls : tree_class;
  name : string;
  _abspath : string;
  leadingpath : string;
  rootdir : string;
  _elemlist : list string;
  _applied_filters : list string
}.

Definition size (t : Tree) : nat := length (_elemlist t).
Definition elements (t : Tree) : list string := _elemlist t.
Definition files (t : Tree) : list string := _elemlist t.
Definition path (t : Tree) : string := _abspath t.
Definition applied_filters (t : Tree) : list string := _applied_filters t.

Definition set_elements (t : Tree) (arg : list string) : Tree :=
  mkTree (cls t) (name t) (_abspath t) (leadingpath t) (rootdir t)
         arg (_applied_filters t).

Definition append_filter (t : Tree) (expression : string) : Tree :=
  mkTree (cls t) (name t) (_abspath t) (leadingpath t) (rootdir t)
         (_elemlist t) (_applied_filters t ++ [expression]).

(** ** Path arguments *)

(** [Basetree._parse_path_argument]; [cwd] is the value of [os.getcwd()]. *)
Definition _parse_path_argument (cwd path : string) : string :=
  let path := if Str.endswith "/" path then Str.drop_last path else path in
  if Str.startswith "/" path then path
  else if Str.startswith "./" path then
    let path := Str.slice_from 2 path in
    Str.join "/" [cwd; path]
  else Str.join "/" [cwd; path].

(** [l[-1]] and [l[-2]] *)
Definition last_elem (l : list string) : exn + string :=
  match reverse l with
  | x :: _ => inr x
  | _ => inl IndexError
  end.

Definition last_but_one (l : list string) : exn + string :=
  match reverse l with
  | _ :: x :: _ => inr x
  | _ => inl IndexError
  end.

(** [l[1:-1]] *)
Definition inner (l : list string) : list string :=
  reverse (tail (reverse (tail l))).

(** [Basetree._seperate_path] *)
Definition _seperate_path (path : string) : exn + (string * string) :=
  let path_elements := Str.split "/"%char path in
  let leadingpath := "/" +:+ Str.join "/" (inner path_elements) +:+ "/" in
  match last_elem path_elements with
  | inl e => inl e
  | inr l =>
      if String.eqb l "" then
        match last_but_one path_elements with
        | inl e => inl e
        | inr directory => inr (leadingpath, directory)
        end
      else inr (leadingpath, l)
  end.

(** ** Regular expressions

    The module reaches Python's [re] through [re.fullmatch(pattern, string)],
    which compiles the pattern (raising [re.error] when it is malformed) and
    then matches the whole string.  The interface below is what the module
    relies on; [filter] is stated over any engine of this shape. *)

Class Regex := {
  pattern : Type;
  re_compile : string -> option pattern;      (* [None]: [re.error] *)
  pattern_fullmatch : pattern -> string -> bool
}.

(** [re.fullmatch(expression, name)], as a truth value *)
Definition re_fullmatch `{Regex} (expression name : string) : exn + bool :=
  match re_compile expression with
  | None => inl re_error
  | Some p => inr (pattern_fullmatch p name)
  end.

(** A concrete engine for a fragment of Python's pattern syntax: literal
    characters, [.] (any character but a newline), the postfix operators
    [*], [+] and [?], alternation [|], groups [( )] and a backslash before
    a character that is not a letter or digit.  On this fragment [compile]
    agrees with Python.  Patterns that use anything else (character
    classes, counted repetition, anchors, lazy or possessive repetition,
    backslash classes, group extensions) are not covered: [compile] gives
    [None] on them, and no statement below uses such a pattern. *)
Module PyRe.

Inductive regex :=
  | Void
  | Eps
  | Lit (c : ascii)
  | Dot
  | Cat (r1 r2 : regex)
  | Alt (r1 r2 : regex)
  | Star (r : regex).

Fixpoint nullable (r : regex) : bool :=
  match r with
  | Void | Lit _ | Dot => false
  | Eps | Star _ => true
  | Cat r1 r2 => nullable r1 && nullable r2
  | Alt r1 r2 => nullable r1 || nullable r2
  end.

Definition newline : ascii := "010"%char.

(** The derivative of [r] by the character [a]. *)
Fixpoint deriv (a : ascii) (r : regex) : regex :=
  match r with
  | Void | Eps => Void
  | Lit c => if Ascii.eqb a c then Eps else Void
  | Dot => if Ascii.eqb a newline then Void else Eps
  | Cat r1 r2 =>
      if nullable r1 then Alt (Cat (deriv a r1) r2) (deriv a r2)
      else Cat (deriv a r1) r2
  | Alt r1 r2 => Alt (deriv a r1) (deriv a r2)
  | Star r1 => Cat (deriv a r1) (Star r1)
  end.

Fixpoint fullmatch (r : regex) (s : string) : bool :=
  match s with
  | "" => nullable r
  | String a s' => fullmatch (deriv a r) s'
  end.

(** A group being parsed: the finished alternatives and the items of the
    alternative in progress, both latest first. *)
Definition frame : Type := list regex * list regex.

Definition empty_frame : frame := ([], []).

Definition cat_items (items : list regex) : regex :=
  foldl (fun acc r => match acc with Eps => r | _ => Cat r acc end) Eps items.

Definition close (f : frame) : regex :=
  foldl (fun acc r => Alt r acc) (cat_items f.2) f.1.

Definition push (f : frame) (r : regex) : frame := (f.1, r :: f.2).

Definition new_alt (f : frame) : frame := (cat_items f.2 :: f.1, []).

Definition quantify (f : frame) (op : ascii) : frame :=
  match f.2 with
  | [] => f
  | r :: items =>
      let r' := if Ascii.eqb op "*" then Star r
                else if Ascii.eqb op "+" then Cat r (Star r)
                else Alt r Eps in
      (f.1, r' :: items)
  end.

Definition is_alnum (c : ascii) : bool :=
  let n := nat_of_ascii c in
  ((48 <=? n) && (n <=? 57)) || ((65 <=? n) && (n <=? 90))
  || ((97 <=? n) && (n <=? 122)).

Definition is_quantifier (c : ascii) : bool :=
  Ascii.eqb c "*" || Ascii.eqb c "+" || Ascii.eqb c "?".

Definition unsupported (c : ascii) : bool :=
  Ascii.eqb c "[" || Ascii.eqb c "{" || Ascii.eqb c "^" || Ascii.eqb c "$".

(** [parse s stack cur q]: [stack] holds the enclosing groups, [cur] the
    group being read, and [q] tells whether the last item may take a
    postfix operator. *)
Fixpoint parse (s : string) (stack : list frame) (cur : frame) (q : bool)
  : option regex :=
  match s with
  | "" => match stack with
          | [] => Some (close cur)
          | _ => None                       (* missing ) *)
          end
  | String c s' =>
      if Ascii.eqb c "(" then parse s' (cur :: stack) empty_frame false
      else if Ascii.eqb c ")" then
        match stack with
        | [] => None                        (* unbalanced parenthesis *)
        | f :: stack' => parse s' stack' (push f (close cur)) true
        end
      else if Ascii.eqb c "|" then parse s' stack (new_alt cur) false
      else if is_quantifier c then
        if q then parse s' stack (quantify cur c) false
        else None                           (* nothing to repeat *)
      else if Ascii.eqb c "." then parse s' stack (push cur Dot) true
      else if Ascii.eqb c "\" then
        match s' with
        | "" => None                        (* bad escape *)
        | String d s'' =>
            if is_alnum d then None
            else parse s'' stack (push cur (Lit d)) true
        end
      else if unsupported c then None
      else parse s' stack (push cur (Lit c)) true
  end.

Definition compile (s : string) : option regex := parse s [] empty_frame false.

Definition engine : Regex :=
  {| pattern := regex; re_compile := compile; pattern_fullmatch := fullmatch |}.

End PyRe.

(** ** Filtering *)

(** What a method call leaves behind: what it returned or raised, and the
    receiver afterwards. *)
Definition outcome (A : Type) : Type := (exn + A) * Tree.

(** [e in s] on strings: [e] occurs in [s] as a contiguous substring. *)
Fixpoint is_substring (e s : string) : bool :=
  Str.startswith e s ||
  match s with
  | "" => false
  | String _ s' => is_substring e s'
  end.

Section Filter.
Context `{Regex}.

(** The loop of [Basetree.filter] over [self.elements]; [filtered] is the
    list built so far. *)
Fixpoint filter_loop (expression : string) (invert : bool)
    (names filtered : list string) : exn + list string :=
  match names with
  | [] => inr filtered
  | name :: rest =>
      match re_fullmatch expression name with
      | inl e => inl e
      | inr m =>
          if invert then
            if negb m then filter_loop expression invert rest (filtered ++ [name])
            else filter_loop expression invert rest filtered
          else
            if m then filter_loop expression invert rest (filtered ++ [name])
            else filter_loop expression invert rest filtered
      end
  end.

(** The pattern the loop matches with. *)
Definition effective_pattern (regex : bool) (expression : string) : string :=
  if regex then expression else ".*" +:+ expression +:+ ".*".

(** [Basetree.filter]; [copy.deepcopy(self)] is [self] as a value. *)
Definition filter (self : Tree) (expression : string)
    (inplace regex invert : bool) : outcome (option Tree) :=
  let expression := effective_pattern regex expression in
  match filter_loop expression invert (elements self) [] with
  | inl e => (inl e, self)
  | inr filtered =>
      let expression := if invert then "!><" +:+ expression else expression in
      if inplace then
        (inr None, append_filter (set_elements self filtered) expression)
      else
        let selfcopy := self in
        (inr (Some (append_filter (set_elements selfcopy filtered) expression)),
         self)
  end.

(** The survivors when the pattern compiles to [p]. *)
Definition survivors (p : pattern) (invert : bool) (names : list string)
  : list string :=
  List.filter (fun name => xorb invert (pattern_fullmatch p name)) names.

End Filter.

(** ** The filesystem

    What the module sees of the operating system: the working directory
    and a tree of files and directories.  A directory that cannot be listed
    ([readable = false]) still shows up by name in its parent. *)

Unset Elimination Schemes.
Inductive node :=
  | File (content : list byte)
  | Dir (readable : bool) (entries : list (string * node)).
Set Elimination Schemes.

Record os_env := {
  getcwd : string;
  fsroot : node
}.

Definition is_dir (n : node) : bool :=
  match n with Dir _ _ => true | File _ => false end.

Definition dir_names (entries : list (string * node)) : list string :=
  map fst (List.filter (fun e => is_dir e.2) entries).

Definition file_names (entries : list (string * node)) : list string :=
  map fst (List.filter (fun e => negb (is_dir e.2)) entries).

Fixpoint find_entry (s : string) (entries : list (string * node)) : option node :=
  match entries with
  | [] => None
  | (n, child) :: rest => if String.eqb n s then Some child else find_entry s rest
  end.

Fixpoint descend (segments : list string) (n : node) : option node :=
  match segments with
  | [] => Some n
  | s :: rest =>
      match n with
      | File _ => None
      | Dir _ entries =>
          match find_entry s entries with
          | Some child => descend rest child
          | None => None
          end
      end
  end.

(** A path with an embedded NUL: the system calls refuse it before they
    look at the filesystem. *)
Definition has_nul (p : string) : bool := Str.contains_char "000"%char p.

(** The node an absolute path names; empty segments and [.] are skipped.
    A path with an embedded NUL names nothing. *)
Definition resolve (env : os_env) (p : string) : option node :=
  if has_nul p then None
  else
    descend
      (List.filter (fun s => negb (String.eqb s "" || String.eqb s "."))
         (Str.split "/"%char p))
      (fsroot env).

(** [os.path.join(top, name)] for a [name] that does not start with [/] *)
Definition os_path_join (top name : string) : string :=
  if String.eqb top "" || Str.endswith "/" top then top +:+ name
  else top +:+ "/" +:+ name.

(** [os.walk(top)] on the directory [n] that [top] names: one triple
    [(root, dirs, files)] for each directory that can be listed, top down.
    A failing [scandir] is ignored ([onerror] is left at [None]), so a
    directory that cannot be listed yields nothing. *)
Fixpoint os_walk (top : string) (n : node) : list (string * list string * list string) :=
  match n with
  | File _ => []
  | Dir false _ => []
  | Dir true entries =>
      (top, dir_names entries, file_names entries)
      :: flat_map (fun e => if is_dir e.2 then os_walk (os_path_join top e.1) e.2
                            else [])
           entries
  end.

(** [os.walk(top)], run to its end.  [scandir] raises [ValueError] for a
    path with an embedded NUL, and [os.walk] catches [OSError] only, so that
    one comes out; a top that is missing, is a file or cannot be listed
    yields nothing. *)
Definition walk (env : os_env) (top : string)
  : exn + list (string * list string * list string) :=
  if has_nul top then inl ValueError
  else
    inr (match resolve env top with
         | Some n => os_walk top n
         | None => []
         end).

(** [os.listdir(p)] *)
Definition os_listdir (env : os_env) (p : string) : exn + list string :=
  if has_nul p then inl ValueError
  else
    match resolve env p with
    | Some (Dir true entries) => inr (map fst entries)
    | _ => inl OSError
    end.

(** [open(p, 'rb')] and the bytes it will read *)
Definition open_rb (env : os_env) (p : string) : option (list byte) :=
  match resolve env p with
  | Some (File content) => Some content
  | _ => None
  end.

(** ** Building the trees *)

(** [Basetree._create_abslist] *)
Definition _create_abslist (tree : list (string * list string * list string))
    (dirsonly : bool) : list string :=
  flat_map
    (fun '(root, dirs, files) =>
       map (fun entry =>
              if negb (String.eqb root "") then root +:+ "/" +:+ entry
              else entry)
           (if dirsonly then dirs else files))
    tree.

(** [Basetree._create_rellist].  The cut is counted in bytes.  It is the cut
    of the code, which is counted in characters, when [p] starts with
    [path] and the character after it takes one byte, as the separator
    does. *)
Definition _create_rellist (abslist : list string) (path : string) : list string :=
  map (fun p => Str.slice_from (String.length path + 1) p) abslist.

(** [list.sort()] on strings *)
Definition sort (l : list string) : list string := merge_sort String.le l.

(** [Basetree.__init__] *)
Definition Basetree_init (env : os_env) (path name : string) : exn + Tree :=
  let abspath := _parse_path_argument (getcwd env) path in
  match _seperate_path abspath with
  | inl e => inl e
  | inr (leadingpath, rootdir) =>
      inr (mkTree Basetree_cls name abspath leadingpath rootdir [] [])
  end.

Definition with_class (c : tree_class) (t : Tree) : Tree :=
  mkTree c (name t) (_abspath t) (leadingpath t) (rootdir t)
         (_elemlist t) (_applied_filters t).

(** [Filetree.__init__] *)
Definition Filetree_init (env : os_env) (path name : string) : exn + Tree :=
  match Basetree_init env path name with
  | inl e => inl e
  | inr self =>
      match walk env (_abspath self) with
      | inl e => inl e
      | inr tree =>
          let abslist := _create_abslist tree false in
          let elemlist := sort (_create_rellist abslist (_abspath self)) in
          match os_listdir env (_abspath self) with
          | inl e => inl e
          | inr _ => inr (set_elements (with_class Filetree_cls self) elemlist)
          end
      end
  end.

(** [Dirtree.__init__] *)
Definition Dirtree_init (env : os_env) (path name : string) : exn + Tree :=
  match Basetree_init env path name with
  | inl e => inl e
  | inr self =>
      match walk env (_abspath self) with
      | inl e => inl e
      | inr tree =>
          let abslist := _create_abslist tree true in
          let elemlist := sort (_create_rellist abslist (_abspath self)) in
          inr (set_elements (with_class Dirtree_cls self) elemlist)
      end
  end.

(** ** Comparing trees *)

Record size_result := { size_equal : bool; na : nat; nb : nat }.
Record set_result := {
  set_equal : bool; missing_a : list string; missing_b : list string }.
Record binary_result := { binary_equal : bool; diff : option (list string) }.

(** The order in which Python walks a set is not specified; the statements
    below use only that every member comes up once. *)
Definition set_iter (X : gset string) : list string := base.elements X.

(** [compare_size] *)
Definition compare_size (tree_a tree_b : Tree) : size_result :=
  let na := size tree_a in
  let nb := size tree_b in
  {| size_equal := if Nat.eqb na nb then true else false; na := na; nb := nb |}.

(** [compare_set] *)
Definition compare_set (tree_a tree_b : Tree) : set_result :=
  let set_a : gset string := list_to_set (elements tree_a) in
  let set_b : gset string := list_to_set (elements tree_b) in
  if bool_decide (set_a = set_b) then
    {| set_equal := true; missing_a := []; missing_b := [] |}
  else
    {| set_equal := false;
       missing_a := set_iter (set_b ∖ set_a);
       missing_b := set_iter (set_a ∖ set_b) |}.

(** A digest of [hashlib]: [method()] makes a hasher, fed by [update] and
    read by [hexdigest]. *)
Record hash_method := {
  hasher : Type;
  new : hasher;
  update : hasher -> list byte -> hasher;
  hexdigest : hasher -> string
}.

(** The loop of [_hash]: chunks of 1024 bytes are read and fed to the hasher
    until an empty chunk comes back (which is fed too).  [fuel] bounds the
    number of reads; one more than the length of the file is never used up
    ([read_loop_fuel]). *)
Fixpoint read_loop (m : hash_method) (fuel : nat) (file : list byte)
    (h : hasher m) : hasher m :=
  match fuel with
  | O => h
  | S fuel' =>
      let chunk := take 1024 file in
      let h' := update m h chunk in
      match chunk with
      | [] => h'
      | _ => read_loop m fuel' (drop 1024 file) h'
      end
  end.

(** What [_hash] returns for a file that can be opened. *)
Definition digest (env : os_env) (m : hash_method) (filepath : string)
  : option string :=
  match open_rb env filepath with
  | Some content =>
      Some (hexdigest m (read_loop m (S (length content)) content (new m)))
  | None => None
  end.

Definition isinstance (t : Tree) (c : tree_class) : bool := bool_decide (cls t = c).

Section Compare.
(** [hashlib.md5], the default of [compare_binary] and of [_hash] *)
Variable md5 : hash_method.

(** [_hash(filepath, method)] *)
Definition _hash (env : os_env) (filepath : string) (method : hash_method)
  : IO string :=
  emit (EOpen filepath);;
  match digest env method filepath with
  | Some d => ret d
  | None => raise OSError
  end.

(** The loop of [compare_binary] over the files to compare.  [_hash] is
    called with the path alone, so with its default [method=md5]. *)
Fixpoint binary_loop (env : os_env) (tree_a tree_b : Tree)
    (comp_set : list string) (diff : list string) : IO (list string) :=
  match comp_set with
  | [] => ret diff
  | filename :: rest =>
      let* ha := _hash env (path tree_a +:+ "/" +:+ filename) md5 in
      let* hb := _hash env (path tree_b +:+ "/" +:+ filename) md5 in
      if negb (String.eqb ha hb)
      then binary_loop env tree_a tree_b rest (diff ++ [filename])
      else binary_loop env tree_a tree_b rest diff
  end.

(** What the loop amounts to when every file can be read: the files it
    reports and the files it opens. *)
Definition differs (env : os_env) (tree_a tree_b : Tree) (filename : string) : bool :=
  match digest env md5 (path tree_a +:+ "/" +:+ filename),
        digest env md5 (path tree_b +:+ "/" +:+ filename) with
  | Some ha, Some hb => negb (String.eqb ha hb)
  | _, _ => false
  end.

Definition opened (tree_a tree_b : Tree) (names : list string) : list event :=
  flat_map (fun f => [EOpen (path tree_a +:+ "/" +:+ f);
                      EOpen (path tree_b +:+ "/" +:+ f)]) names.

(** The files [compare_binary] compares.  Elements are strings, which are
    hashable, so the [TypeError] branch of the source is never taken. *)
Definition comp_set (tree_a tree_b : Tree) : gset string :=
  let set_result := compare_set tree_a tree_b in
  let allfiles : gset string :=
    list_to_set (files tree_a) ∪ list_to_set (files tree_b) in
  let excluded : gset string :=
    list_to_set (missing_a set_result) ∪ list_to_set (missing_b set_result) in
  allfiles ∖ excluded.

(** [compare_binary(tree_a, tree_b, hashmethod)] *)
Definition compare_binary (env : os_env) (tree_a tree_b : Tree)
    (hashmethod : hash_method) : IO binary_result :=
  if negb (isinstance tree_a Filetree_cls && isinstance tree_b Filetree_cls)
  then
    emit (EWarn "UserWarning" "Binary Comparison for Dirtree's is meaningless");;
    ret {| binary_equal := true; diff := None |}
  else
    let* diff := binary_loop env tree_a tree_b
                   (set_iter (comp_set tree_a tree_b)) [] in
    ret {| binary_equal := if Nat.eqb (length diff) 0 then true else false;
           diff := Some diff |}.

Inductive compare_result :=
  | SizeResult (r : size_result)
  | SetResult (r : set_result)
  | BinaryResult (r : binary_result).

(** [Basetree.compare]: [res] is bound in the branches only, and
    [return res] raises when none was taken. *)
Definition compare (env : os_env) (self tree : Tree) (method : string)
  : IO compare_result :=
  let* res :=
    if String.eqb method "size" then
      ret (Some (SizeResult (compare_size self tree)))
    else if String.eqb method "set" then
      ret (Some (SetResult (compare_set self tree)))
    else if bool_decide (method ∈ ["binary"; "bin"]) then
      let* r := compare_binary env self tree md5 in
      ret (Some (BinaryResult r))
    else ret None in
  match res with
  | Some r => ret r
  | None => raise UnboundLocalError
  end.

End Compare.

(** The claim of the specification about the digest: every file is hashed
    with the digest that was passed to [compare_binary]. *)
Fixpoint binary_loop_configured (env : os_env) (tree_a tree_b : Tree)
    (hashmethod : hash_method) (comp_set : list string) (diff : list string)
  : IO (list string) :=
  match comp_set with
  | [] => ret diff
  | filename :: rest =>
      let* ha := _hash env (path tree_a +:+ "/" +:+ filename) hashmethod in
      let* hb := _hash env (path tree_b +:+ "/" +:+ filename) hashmethod in
      if negb (String.eqb ha hb)
      then binary_loop_configured env tree_a tree_b hashmethod rest (diff ++ [filename])
      else binary_loop_configured env tree_a tree_b hashmethod rest diff
  end.

(** ** Trees for the examples *)

(** A tree with the given class, root and elements, and no filter applied. *)
Definition tree_of (c : tree_class) (abspath : string) (elems : list string) : Tree :=
  mkTree c "" abspath "/" abspath elems [].


(** Two digests to run the comparison with: [hex_digest] spells out the
    bytes it was fed, [length_digest] only counts them. *)
Definition hex_char (n : N) : ascii :=
  match n with
  | 0%N => "0" | 1%N => "1" | 2%N => "2" | 3%N => "3" | 4%N => "4"
  | 5%N => "5" | 6%N => "6" | 7%N => "7" | 8%N => "8" | 9%N => "9"
  | 10%N => "a" | 11%N => "b" | 12%N => "c" | 13%N => "d" | 14%N => "e"
  | _ => "f"
  end%char.

Fixpoint hex_of_bytes (l : list byte) : string :=
  match l with
  | [] => ""
  | b :: l' =>
      let n := Byte.to_N b in
      String (hex_char (N.div n 16)) (String (hex_char (N.modulo n 16)) (hex_of_bytes l'))
  end.

Definition hex_digest : hash_method :=
  {| hasher := list byte; new := [];
     update := fun h chunk => h ++ chunk;
     hexdigest := hex_of_bytes |}.

Definition length_digest : hash_method :=
  {| hasher := nat; new := 0;
     update := fun h chunk => h + length chunk;
     hexdigest := fun h => hex_of_bytes [default Byte.x00 (Byte.of_nat h)] |}.

(** The scenario of the specification: two roots with the same files, one
    of which differs in content. *)
Definition bytes (s : string) : list byte := String.list_byte_of_string s.

Definition two_roots : os_env :=
  {| getcwd := "/";
     fsroot :=
       Dir true
         [("A", Dir true [("a", Dir true [("x.txt", File (bytes "1"));
                                          ("y.txt", File (bytes "2"))])]);
          ("B", Dir true [("a", Dir true [("y.txt", File (bytes "9"));
                                          ("x.txt", File (bytes "1"))])])] |}.

Definition tree_A : Tree :=
  mkTree Filetree_cls "" "/A" "//" "A" ["a/x.txt"; "a/y.txt"] [].
Definition tree_B : Tree :=
  mkTree Filetree_cls "" "/B" "//" "B" ["a/x.txt"; "a/y.txt"] [].

(** A file tree as it was built on a directory [/gone] with the same files,
    which has been removed since. *)
Definition tree_gone : Tree :=
  mkTree Filetree_cls "" "/gone" "//" "gone" ["a/x.txt"; "a/y.txt"] [].

(** ** The rest of the interface of the trees *)

(** [Filetree.absfiles] and [Dirtree.absdirectories] *)
Definition absfiles (t : Tree) : list string :=
  map (fun x => _abspath t +:+ "/" +:+ x) (_elemlist t).

Definition absdirectories (t : Tree) : list string :=
  map (fun x => _abspath t +:+ "/" +:+ x) (_elemlist t).

(** The [result] attribute of what [compare] returns *)
Definition result_of (r : compare_result) : bool :=
  match r with
  | SizeResult r => size_equal r
  | SetResult r => set_equal r
  | BinaryResult r => binary_equal r
  end.

Section Equality.
Variable md5 : hash_method.

(** [Filetree.__eq__]: [and] does not evaluate its second operand when the
    first is false. *)
Definition Filetree_eq (env : os_env) (self other : Tree) : IO bool :=
  let* s := compare md5 env self other "set" in
  if result_of s then
    let* b := compare md5 env self other "binary" in
    ret (result_of b)
  else ret false.

(** [Dirtree.__eq__] *)
Definition Dirtree_eq (env : os_env) (self other : Tree) : IO bool :=
  let* s := compare md5 env self other "set" in
  ret (result_of s).

End Equality.

(** ** Directories as the walk sees them *)

(** A name of a directory entry: not empty, without a separator. *)
Definition valid_name (s : string) : bool :=
  negb (String.eqb s "") && negb (Str.contains_char "/" s).

(** Names are valid and differ within each directory. *)
Fixpoint wf_node (n : node) : bool :=
  match n with
  | File _ => true
  | Dir _ entries =>
      bool_decide (NoDup (map fst entries))
      && forallb (fun e => valid_name e.1 && wf_node e.2) entries
  end.

(** The paths, relative to a directory, of the files (or, with [dirsonly],
    of the directories) that a walk of it reaches: the entries of the
    directory itself, then those of each of its subdirectories under the
    name of the subdirectory.  Nothing below a directory that cannot be
    listed. *)
Fixpoint rel_paths (dirsonly : bool) (n : node) : list string :=
  match n with
  | File _ => []
  | Dir false _ => []
  | Dir true entries =>
      (if dirsonly then dir_names entries else file_names entries)
      ++ flat_map (fun e => if is_dir e.2
                            then map (fun r => e.1 +:+ "/" +:+ r)
                                     (rel_paths dirsonly e.2)
                            else [])
           entries
  end.

(** A digest that keeps the chunks it was fed, to observe [_hash]. *)
Definition chunk_recorder : hash_method :=
  {| hasher := list (list byte); new := [];
     update := fun h chunk => h ++ [chunk];
     hexdigest := fun h => hex_of_bytes (concat h) |}.

(** A directory with a subdirectory that cannot be listed. *)
Definition locked_env : os_env :=
  {| getcwd := "/";
     fsroot :=
       Dir true
         [("r", Dir true [("a", File (bytes "1"));
                          ("secret", Dir false [("k", File (bytes "2"))])])] |}.

(** A working directory with two subdirectories. *)
Definition work_env : os_env :=
  {| getcwd := "/w";
     fsroot :=
       Dir true
         [("w", Dir true [("sa", Dir true [("x", File (bytes "1"))]);
                          ("ta", Dir true [("x", File (bytes "2"))])])] |}.

(** A name whose first character takes one byte. *)
Definition starts_one_byte (s : string) : bool :=
  match s with
  | "" => false
  | String c _ => (N_of_ascii c <? 128)%N
  end.

(** The relative paths of a listed directory, with the first byte cut off
    the name of each of its subdirectories in the paths below it. *)
Definition clipped_paths (dirsonly : bool) (entries : list (string * node))
  : list string :=
  (if dirsonly then dir_names entries else file_names entries)
  ++ flat_map (fun e => if is_dir e.2
                        then map (fun r => Str.slice_from 1 e.1 +:+ "/" +:+ r)
                                 (rel_paths dirsonly e.2)
                        else [])
       entries.

(** * Properties *)

(** ** Sanity checks of the embedding on concrete inputs *)

Example parse_abs : _parse_path_argument "/home/u" "/srv/data/" = "/srv/data".
Proof. reflexivity. Qed.
Example parse_rel : _parse_path_argument "/home/u" "./proj" = "/home/u/proj".
Proof. reflexivity. Qed.
Example parse_plain : _parse_path_argument "/home/u" "proj/sub" = "/home/u/proj/sub".
Proof. reflexivity. Qed.
Example separate_abs : _seperate_path "/srv/data" = inr ("/srv/", "data").
Proof. reflexivity. Qed.

Example compile_log :
  PyRe.compile ".*log.*"
  = Some (PyRe.Cat (PyRe.Star PyRe.Dot)
           (PyRe.Cat (PyRe.Lit "l") (PyRe.Cat (PyRe.Lit "o")
             (PyRe.Cat (PyRe.Lit "g") (PyRe.Star PyRe.Dot))))).
Proof. reflexivity. Qed.
Example compile_open_paren : PyRe.compile "(" = None.
Proof. reflexivity. Qed.
Example compile_star : PyRe.compile "*" = None.
Proof. reflexivity. Qed.
Example match_log : @re_fullmatch PyRe.engine ".*log.*" "a.log" = inr true.
Proof. reflexivity. Qed.
Example match_txt : @re_fullmatch PyRe.engine ".*log.*" "b.txt" = inr false.
Proof. reflexivity. Qed.
Example match_alt : @re_fullmatch PyRe.engine "(ab|c)*d" "abcabd" = inr true.
Proof. reflexivity. Qed.

(** The scenario of the specification: filtering three names by [log]. *)
Example filter_log :
  @filter PyRe.engine (tree_of Filetree_cls "/r" ["a.log"; "b.txt"; "c.log"])
    "log" false false false
  = (inr (Some (mkTree Filetree_cls "" "/r" "/" "/r" ["a.log"; "c.log"] [".*log.*"])),
     tree_of Filetree_cls "/r" ["a.log"; "b.txt"; "c.log"]).
Proof. reflexivity. Qed.

Example filter_log_inverted :
  @filter PyRe.engine (tree_of Filetree_cls "/r" ["a.log"; "b.txt"; "c.log"])
    "log" true false true
  = (inr None, mkTree Filetree_cls "" "/r" "/" "/r" ["b.txt"] ["!><.*log.*"]).
Proof. reflexivity. Qed.

(** ** Filtering *)

Section FilterFacts.
Context `{Regex}.

Lemma filter_loop_compiled expression p invert names filtered :
  re_compile expression = Some p ->
  filter_loop expression invert names filtered
  = inr (filtered ++ survivors p invert names).
Proof.
  intros Hp. revert filtered.
  induction names as [|name rest IH]; intros filtered; simpl.
  - by rewrite app_nil_r.
  - unfold re_fullmatch. rewrite Hp.
    destruct invert, (pattern_fullmatch p name); simpl;
      rewrite IH; try done; by rewrite <- app_assoc.
Qed.

Lemma filter_loop_malformed expression invert name rest filtered :
  re_compile expression = None ->
  filter_loop expression invert (name :: rest) filtered = inl re_error.
Proof. intros Hp. simpl. unfold re_fullmatch. by rewrite Hp. Qed.

Lemma elem_of_survivors p invert names x :
  x ∈ survivors p invert names
  <-> x ∈ names /\ xorb invert (pattern_fullmatch p x) = true.
Proof. unfold survivors. rewrite !list_elem_of_In, filter_In. tauto. Qed.

(** What [filter] does when its pattern compiles. *)
Lemma filter_compiled self expression p inplace regex invert :
  re_compile (effective_pattern regex expression) = Some p ->
  filter self expression inplace regex invert
  = let log := if invert then "!><" +:+ effective_pattern regex expression
               else effective_pattern regex expression in
    let result :=
      append_filter (set_elements self (survivors p invert (elements self))) log in
    if inplace then (inr None, result) else (inr (Some result), self).
Proof.
  intros Hp. unfold filter.
  by rewrite (filter_loop_compiled _ p _ _ _ Hp).
Qed.

(** C5.  For a tree and an expression whose pattern compiles, the copies
    returned by [filter] without and with [invert] split the elements of
    the tree: no element is in both, and as sets their union is the set of
    elements of the tree.  The receiver is left as it was. *)
Theorem filter_invert_partition (t : Tree) (E : string) (regex : bool) :
  is_Some (re_compile (effective_pattern regex E)) ->
  exists pos neg : Tree,
    filter t E false regex false = (inr (Some pos), t) /\
    filter t E false regex true = (inr (Some neg), t) /\
    (list_to_set (elements pos) ∩ list_to_set (elements neg) : gset string) = ∅ /\
    (list_to_set (elements pos) ∪ list_to_set (elements neg) : gset string)
    = list_to_set (elements t).
Proof.
  intros [p Hp].
  rewrite !(filter_compiled _ _ p _ _ _ Hp). simpl.
  eexists _, _. split; [reflexivity|]. split; [reflexivity|].
  unfold elements; simpl.
  split; apply set_eq; intros x;
    rewrite ?elem_of_intersection, ?elem_of_union, !elem_of_list_to_set,
      !elem_of_survivors; simpl; [rewrite elem_of_empty|];
    destruct (pattern_fullmatch p x); simpl; intuition congruence.
Qed.

(** C6, as the code has it.  On a tree with at least one element, [filter]
    with [regex=True] and a pattern that does not compile raises
    [re.error], and the receiver is left exactly as it was, with and
    without [inplace]. *)
Theorem filter_malformed_regex_atomic (t : Tree) (E : string)
    (inplace invert : bool) :
  re_compile E = None ->
  elements t <> [] ->
  filter t E inplace true invert = (inl re_error, t).
Proof.
  intros Hp Hne. unfold filter. simpl.
  destruct (elements t) as [|name rest]; [done|].
  by rewrite filter_loop_malformed.
Qed.

(** On a tree without elements the pattern is never compiled. *)
Lemma filter_no_elements (t : Tree) (E : string) (regex invert : bool) :
  elements t = [] ->
  filter t E true regex invert
  = (inr None,
     append_filter (set_elements t [])
       (if invert then "!><" +:+ effective_pattern regex E
        else effective_pattern regex E)).
Proof. intros He. unfold filter. by rewrite He. Qed.

End FilterFacts.

Lemma filter_invert_partition_witness :
  exists pos neg : Tree,
    @filter PyRe.engine (tree_of Filetree_cls "/r" ["a.log"; "b.txt"; "c.log"])
      "log" false false false
    = (inr (Some pos), tree_of Filetree_cls "/r" ["a.log"; "b.txt"; "c.log"]) /\
    @filter PyRe.engine (tree_of Filetree_cls "/r" ["a.log"; "b.txt"; "c.log"])
      "log" false false true
    = (inr (Some neg), tree_of Filetree_cls "/r" ["a.log"; "b.txt"; "c.log"]) /\
    (list_to_set (elements pos) ∩ list_to_set (elements neg) : gset string) = ∅ /\
    (list_to_set (elements pos) ∪ list_to_set (elements neg) : gset string)
    = list_to_set ["a.log"; "b.txt"; "c.log"].
Proof.
  apply (@filter_invert_partition PyRe.engine
           (tree_of Filetree_cls "/r" ["a.log"; "b.txt"; "c.log"]) "log" false).
  simpl. eexists. reflexivity.
Defined.

Lemma filter_malformed_regex_atomic_witness :
  @filter PyRe.engine (tree_of Filetree_cls "/r" ["a.log"; "b.txt"]) "(" true true false
  = (inl re_error, tree_of Filetree_cls "/r" ["a.log"; "b.txt"]).
Proof.
  apply (@filter_malformed_regex_atomic PyRe.engine); [reflexivity | discriminate].
Defined.

(** C6 as stated fails on a tree without elements: the loop body never
    runs, [(] is never compiled, and the in-place call returns after
    appending [(] to the applied filters. *)
Lemma filter_malformed_regex_empty_tree :
  @re_compile PyRe.engine "(" = None /\
  @filter PyRe.engine (tree_of Filetree_cls "/r" []) "(" true true false
  = (inr None, mkTree Filetree_cls "" "/r" "/" "/r" [] ["("]) /\
  ~ (exists e, @filter PyRe.engine (tree_of Filetree_cls "/r" []) "(" true true false
               = (inl e, tree_of Filetree_cls "/r" [])).
Proof.
  split; [reflexivity|]. split; [reflexivity|].
  intros [e He]. discriminate He.
Qed.

(** C4 at a failing input.  Without [regex] the expression is still read as
    a pattern: [.] is not contained in [abc], yet [filter] keeps [abc]. *)
Theorem filter_plain_expression_is_pattern :
  is_substring "." "abc" = false /\
  @filter PyRe.engine (tree_of Filetree_cls "/r" ["abc"]) "." false false false
  = (inr (Some (mkTree Filetree_cls "" "/r" "/" "/r" ["abc"] [".*..*"])),
     tree_of Filetree_cls "/r" ["abc"]).
Proof. split; reflexivity. Qed.

(** Other ways the plain mode departs from containment: an expression that
    is not a pattern raises, and [.*] does not run across a newline. *)
Example filter_plain_paren_raises :
  is_substring "(" "f(1)" = true /\
  @filter PyRe.engine (tree_of Filetree_cls "/r" ["f(1)"]) "(" false false false
  = (inl re_error, tree_of Filetree_cls "/r" ["f(1)"]).
Proof. split; reflexivity. Qed.

(** ** Comparators *)

Lemma elem_of_set_iter (X : gset string) x : x ∈ set_iter X <-> x ∈ X.
Proof. apply elem_of_elements. Qed.

Lemma NoDup_set_iter (X : gset string) : NoDup (set_iter X).
Proof. apply NoDup_elements. Qed.

(** The files compared are those in both trees. *)
Lemma comp_set_intersection (tree_a tree_b : Tree) :
  comp_set tree_a tree_b
  = list_to_set (files tree_a) ∩ list_to_set (files tree_b).
Proof.
  unfold comp_set, compare_set, files, elements.
  apply set_eq; intros x. case_bool_decide as Heq; simpl.
  - rewrite elem_of_difference, elem_of_intersection, !elem_of_union.
    rewrite Heq, !elem_of_list_to_set. pose proof (not_elem_of_empty (C:=gset string) x). tauto.
  - rewrite elem_of_difference, elem_of_intersection, !elem_of_union.
    rewrite !elem_of_list_to_set, !elem_of_set_iter, !elem_of_difference.
    rewrite !elem_of_list_to_set.
    destruct (decide (x ∈ _elemlist tree_a)), (decide (x ∈ _elemlist tree_b));
      tauto.
Qed.

Section CompareFacts.
Variable md5 : hash_method.
Variable env : os_env.

Lemma read_loop_fuels (m : hash_method) fuel1 fuel2 file h :
  length file < fuel1 -> length file < fuel2 ->
  read_loop m fuel1 file h = read_loop m fuel2 file h.
Proof.
  revert fuel2 file h.
  induction fuel1 as [|fuel1 IH]; intros [|fuel2] file h H1 H2; try lia.
  cbn [read_loop].
  destruct (take 1024 file) as [|b chunk] eqn:Hchunk; [done|].
  assert (length (drop 1024 file) < length file) as Hdrop.
  { rewrite length_drop. destruct file; [done|]. simpl. lia. }
  apply IH; lia.
Qed.

(** The bound on the reads is never what ends the loop. *)
Lemma read_loop_fuel (m : hash_method) fuel file h :
  length file < fuel ->
  read_loop m fuel file h = read_loop m (S (length file)) file h.
Proof. intros Hlt. apply read_loop_fuels; lia. Qed.

(** The log and the result of [_hash]. *)
Lemma _hash_unfold filepath method :
  _hash env filepath method
  = ([EOpen filepath],
     match digest env method filepath with
     | Some d => inr d
     | None => inl OSError
     end).
Proof. unfold _hash. simpl. by destruct (digest env method filepath). Qed.

Lemma digest_is_Some (m : hash_method) filepath :
  is_Some (open_rb env filepath) -> is_Some (digest env m filepath).
Proof. intros [c Hc]. unfold digest. rewrite Hc. by eexists. Qed.

Lemma binary_loop_step tree_a tree_b f rest diff da db :
  digest env md5 (path tree_a +:+ "/" +:+ f) = Some da ->
  digest env md5 (path tree_b +:+ "/" +:+ f) = Some db ->
  binary_loop md5 env tree_a tree_b (f :: rest) diff
  = let '(l, r) :=
      binary_loop md5 env tree_a tree_b rest
        (if negb (String.eqb da db) then diff ++ [f] else diff) in
    (EOpen (path tree_a +:+ "/" +:+ f)
     :: EOpen (path tree_b +:+ "/" +:+ f) :: l, r).
Proof.
  intros Ha Hb. cbn [binary_loop]. rewrite !_hash_unfold, Ha, Hb.
  cbn [bind]. destruct (negb (String.eqb da db));
    match goal with |- context [binary_loop ?a ?b ?c ?d ?e ?f] =>
      destruct (binary_loop a b c d e f) end; reflexivity.
Qed.

Lemma binary_loop_readable tree_a tree_b names diff :
  (forall f, f ∈ names ->
     is_Some (open_rb env (path tree_a +:+ "/" +:+ f)) /\
     is_Some (open_rb env (path tree_b +:+ "/" +:+ f))) ->
  binary_loop md5 env tree_a tree_b names diff
  = (opened tree_a tree_b names,
     inr (diff ++ List.filter (differs md5 env tree_a tree_b) names)).
Proof.
  revert diff. induction names as [|f rest IH]; intros diff Hread.
  - simpl. by rewrite app_nil_r.
  - destruct (Hread f) as [Ha Hb]; [left|].
    apply (digest_is_Some md5) in Ha as [da Ha], Hb as [db Hb].
    rewrite (binary_loop_step _ _ _ _ _ _ _ Ha Hb).
    rewrite IH by (intros g Hg; apply Hread; by right).
    cbn [List.filter opened flat_map app]. unfold differs at 2.
    rewrite Ha, Hb.
    destruct (negb (String.eqb da db)); [|done].
    by rewrite <- app_assoc.
Qed.

Lemma differs_true tree_a tree_b f :
  is_Some (open_rb env (path tree_a +:+ "/" +:+ f)) ->
  is_Some (open_rb env (path tree_b +:+ "/" +:+ f)) ->
  differs md5 env tree_a tree_b f = true
  <-> digest env md5 (path tree_a +:+ "/" +:+ f)
      <> digest env md5 (path tree_b +:+ "/" +:+ f).
Proof.
  intros Ha Hb.
  apply (digest_is_Some md5) in Ha as [da Ha], Hb as [db Hb].
  unfold differs. rewrite Ha, Hb, negb_true_iff.
  destruct (String.eqb_spec da db); split; congruence.
Qed.

Lemma filter_only (P : string -> bool) (l : list string) (f : string) :
  NoDup l -> f ∈ l -> (forall g, g ∈ l -> P g = true <-> g = f) ->
  List.filter P l = [f].
Proof.
  induction l as [|x l IH]; intros Hnd Hin HP; [by apply elem_of_nil in Hin|].
  apply NoDup_cons in Hnd as [Hx Hnd].
  assert (forall g, g ∈ l -> g <> f -> P g = false) as Hrest.
  { intros g Hg Hne. destruct (P g) eqn:HPg; [|done].
    exfalso. apply Hne, HP; [by right | done]. }
  assert (forall l', (forall g, g ∈ l' -> P g = false) -> List.filter P l' = [])
    as Hnone.
  { induction l' as [|y l' IH']; intros Hl'; [done|]. simpl.
    rewrite Hl' by left. apply IH'. intros g Hg. apply Hl'. by right. }
  simpl. apply elem_of_cons in Hin as [->|Hin].
  - assert (P x = true) as -> by (apply HP; [left | done]).
    f_equal. apply Hnone. intros g Hg. apply Hrest; [done|].
    intros ->. done.
  - assert (P x = false) as ->.
    { destruct (P x) eqn:HPx; [|done]. exfalso.
      assert (x = f) as -> by (apply HP; [left | done]). done. }
    apply IH; [done..|]. intros g Hg. apply HP. by right.
Qed.

(** C1.  For two file trees whose shared files can be read,
    [compare_binary] opens, under both roots, exactly the paths that are
    elements of both trees, each once.  When the trees have the same set
    of elements and the digests under the two roots differ for one element
    [f] and for no other, the result is unequal and [diff] is [[f]]. *)
Theorem compare_binary_shared_files (tree_a tree_b : Tree)
    (hashmethod : hash_method) :
  cls tree_a = Filetree_cls -> cls tree_b = Filetree_cls ->
  (forall f, f ∈ elements tree_a -> f ∈ elements tree_b ->
     is_Some (open_rb env (path tree_a +:+ "/" +:+ f)) /\
     is_Some (open_rb env (path tree_b +:+ "/" +:+ f))) ->
  exists (shared : list string) (r : binary_result),
    NoDup shared /\
    (forall f, f ∈ shared <-> f ∈ elements tree_a /\ f ∈ elements tree_b) /\
    compare_binary md5 env tree_a tree_b hashmethod
    = (opened tree_a tree_b shared, inr r) /\
    ((list_to_set (elements tree_a) : gset string)
       = list_to_set (elements tree_b) ->
     forall f, f ∈ elements tree_a ->
       (forall g, g ∈ elements tree_a ->
          digest env md5 (path tree_a +:+ "/" +:+ g)
          <> digest env md5 (path tree_b +:+ "/" +:+ g) <-> g = f) ->
       binary_equal r = false /\ diff r = Some [f]).
Proof.
  intros Ha Hb Hread.
  set (shared := set_iter (comp_set tree_a tree_b)).
  assert (forall f, f ∈ shared <-> f ∈ elements tree_a /\ f ∈ elements tree_b)
    as Hshared.
  { intros f. unfold shared.
    rewrite elem_of_set_iter, comp_set_intersection, elem_of_intersection,
      !elem_of_list_to_set. done. }
  exists shared, {|
    binary_equal :=
      if Nat.eqb (length (List.filter (differs md5 env tree_a tree_b) shared)) 0
      then true else false;
    diff := Some (List.filter (differs md5 env tree_a tree_b) shared) |}.
  split; [apply NoDup_set_iter|]. split; [done|]. split.
  - unfold compare_binary, isinstance.
    rewrite !bool_decide_eq_true_2 by done. cbn [andb negb].
    fold shared. rewrite binary_loop_readable; [|].
    + cbn [bind ret]. by rewrite app_nil_r.
    + intros f Hf. apply Hshared in Hf as [? ?]. by apply Hread.
  - intros Hsame f Hf Hone. cbn [binary_equal diff].
    assert (forall g, g ∈ elements tree_a <-> g ∈ elements tree_b) as Hmem.
    { intros g. by rewrite <- !(elem_of_list_to_set (C:=gset string)), Hsame. }
    rewrite (filter_only _ shared f); [done|apply NoDup_set_iter|..].
    + apply Hshared. split; [done | by apply Hmem].
    + intros g Hg. apply Hshared in Hg as [Hga Hgb].
      destruct (Hread g Hga Hgb) as [? ?].
      rewrite differs_true by done. by apply Hone.
Qed.

(** C2 at the code.  The digest passed to [compare_binary] has no part in
    what it computes: the files are hashed with the default of [_hash],
    whatever was asked for. *)
Theorem compare_binary_ignores_hashmethod (tree_a tree_b : Tree)
    (hashmethod : hash_method) :
  compare_binary md5 env tree_a tree_b hashmethod
  = compare_binary md5 env tree_a tree_b md5.
Proof. reflexivity. Qed.

(** C7.  When one of the two trees is not a file tree, [compare_binary]
    warns once, opens no file, and returns the result equal with no list
    of differences. *)
Theorem compare_binary_not_filetrees (tree_a tree_b : Tree)
    (hashmethod : hash_method) :
  ~ (cls tree_a = Filetree_cls /\ cls tree_b = Filetree_cls) ->
  compare_binary md5 env tree_a tree_b hashmethod
  = ([EWarn "UserWarning" "Binary Comparison for Dirtree's is meaningless"],
     inr {| binary_equal := true; diff := None |}).
Proof.
  intros Hnot. unfold compare_binary, isinstance.
  destruct (decide (cls tree_a = Filetree_cls)) as [Ha|Ha];
    destruct (decide (cls tree_b = Filetree_cls)) as [Hb|Hb];
    [tauto|..];
    rewrite ?(bool_decide_eq_true_2 _ Ha), ?(bool_decide_eq_false_2 _ Ha),
      ?(bool_decide_eq_true_2 _ Hb), ?(bool_decide_eq_false_2 _ Hb);
    reflexivity.
Qed.

(** C10.  For a method other than [size], [set], [binary] and [bin],
    [compare] raises [UnboundLocalError]; so a call that returns was made
    with one of the four. *)
Theorem compare_unknown_method (self tree : Tree) (method : string) :
  (method ∉ ["size"; "set"; "binary"; "bin"] ->
   compare md5 env self tree method = ([], inl UnboundLocalError)) /\
  (forall l r, compare md5 env self tree method = (l, inr r) ->
     method ∈ ["size"; "set"; "binary"; "bin"]).
Proof.
  assert (method ∉ ["size"; "set"; "binary"; "bin"] ->
          compare md5 env self tree method = ([], inl UnboundLocalError)) as Hraise.
  { intros Hnot. unfold compare.
    destruct (String.eqb_spec method "size") as [->|_].
    { exfalso. apply Hnot. by left. }
    destruct (String.eqb_spec method "set") as [->|_].
    { exfalso. apply Hnot. right. by left. }
    rewrite bool_decide_eq_false_2; [reflexivity|].
    intros Hin. apply Hnot. right. by right. }
  split; [done|].
  intros l r Hret.
  destruct (decide (method ∈ ["size"; "set"; "binary"; "bin"])) as [|Hnot];
    [done|].
  rewrite (Hraise Hnot) in Hret. discriminate.
Qed.

End CompareFacts.

(** ** The scenario of the specification, run *)

Example build_tree_A : Filetree_init two_roots "/A" "" = inr tree_A.
Proof. vm_compute. reflexivity. Qed.
Example build_tree_B : Filetree_init two_roots "/B/" "" = inr tree_B.
Proof. vm_compute. reflexivity. Qed.

Example scenario_set :
  compare_set tree_A tree_B
  = {| set_equal := true; missing_a := []; missing_b := [] |}.
Proof. vm_compute. reflexivity. Qed.

Example scenario_binary :
  snd (compare_binary hex_digest two_roots tree_A tree_B hex_digest)
  = inr {| binary_equal := false; diff := Some ["a/y.txt"] |}.
Proof. vm_compute. reflexivity. Qed.

Lemma two_roots_readable f :
  f ∈ elements tree_A -> f ∈ elements tree_B ->
  is_Some (open_rb two_roots (path tree_A +:+ "/" +:+ f)) /\
  is_Some (open_rb two_roots (path tree_B +:+ "/" +:+ f)).
Proof.
  intros Hf _. unfold elements, tree_A, _elemlist in Hf.
  apply elem_of_cons in Hf as [->|Hf]; [split; vm_compute; eauto|].
  apply elem_of_cons in Hf as [->|Hf]; [split; vm_compute; eauto|].
  by apply elem_of_nil in Hf.
Qed.

Lemma two_roots_one_differs g :
  g ∈ elements tree_A ->
  digest two_roots hex_digest (path tree_A +:+ "/" +:+ g)
  <> digest two_roots hex_digest (path tree_B +:+ "/" +:+ g) <-> g = "a/y.txt".
Proof.
  intros Hg. unfold elements, tree_A, _elemlist in Hg.
  apply elem_of_cons in Hg as [->|Hg]; [split; [|discriminate]|].
  { intros Hd. exfalso. apply Hd. vm_compute. reflexivity. }
  apply elem_of_cons in Hg as [->|Hg]; [split; [done|]|].
  { intros _. vm_compute. discriminate. }
  by apply elem_of_nil in Hg.
Qed.

Lemma compare_binary_shared_files_witness :
  exists r : binary_result,
    snd (compare_binary hex_digest two_roots tree_A tree_B length_digest) = inr r /\
    binary_equal r = false /\ diff r = Some ["a/y.txt"].
Proof.
  destruct (compare_binary_shared_files hex_digest two_roots tree_A tree_B
              length_digest eq_refl eq_refl two_roots_readable)
    as (shared & r & _ & _ & Hrun & Hone).
  exists r. split.
  - rewrite Hrun. reflexivity.
  - apply (Hone eq_refl "a/y.txt").
    + right. left.
    + apply two_roots_one_differs.
Defined.

(** C1 as stated fails on two file trees with the same two files when the
    root of the second has been removed since it was built: the first file
    that cannot be opened makes [compare_binary] raise [OSError].  No result
    comes back, and one of the shared files is never opened under the first
    root, so the files of the intersection are not all hashed. *)
Lemma compare_binary_unreadable_shared_file :
  cls tree_A = Filetree_cls /\ cls tree_gone = Filetree_cls /\
  elements tree_A = elements tree_gone /\
  (exists l,
     compare_binary hex_digest two_roots tree_A tree_gone hex_digest
     = (l, inl OSError) /\
     length l = 2 /\
     exists f, f ∈ elements tree_A /\ f ∈ elements tree_gone /\
       EOpen (path tree_A +:+ "/" +:+ f) ∉ l) /\
  ~ (exists l r,
       compare_binary hex_digest two_roots tree_A tree_gone hex_digest
       = (l, inr r)).
Proof.
  split; [reflexivity|]. split; [reflexivity|]. split; [reflexivity|]. split.
  - eexists. split; [vm_compute; reflexivity|]. split; [reflexivity|].
    exists "a/x.txt". split; [left|]. split; [left|].
    intros Hin.
    repeat (apply elem_of_cons in Hin as [Hin|Hin]; [discriminate Hin|]).
    by apply elem_of_nil in Hin.
  - intros (l & r & Hrun). vm_compute in Hrun. discriminate Hrun.
Qed.

(** C2 on the scenario: with a default digest that cannot tell the two
    contents of [a/y.txt] apart and a requested digest that can, the file
    is not reported, while hashing with the requested digest reports it. *)
Example compare_binary_requested_digest_unused :
  snd (compare_binary length_digest two_roots tree_A tree_B hex_digest)
  = inr {| binary_equal := true; diff := Some [] |} /\
  snd (binary_loop_configured two_roots tree_A tree_B hex_digest
         (set_iter (comp_set tree_A tree_B)) [])
  = inr ["a/y.txt"].
Proof. split; vm_compute; reflexivity. Qed.

Lemma compare_binary_not_filetrees_witness :
  compare_binary hex_digest two_roots
    (tree_of Dirtree_cls "/A" ["a"]) (tree_of Dirtree_cls "/B" ["a"]) hex_digest
  = ([EWarn "UserWarning" "Binary Comparison for Dirtree's is meaningless"],
     inr {| binary_equal := true; diff := None |}).
Proof.
  apply compare_binary_not_filetrees. simpl. intros [Ha _]. discriminate Ha.
Defined.

Lemma compare_unknown_method_witness :
  compare hex_digest two_roots tree_A tree_B "sizes" = ([], inl UnboundLocalError).
Proof.
  apply (compare_unknown_method hex_digest two_roots tree_A tree_B "sizes").
  intros Hin. repeat (apply elem_of_cons in Hin as [Hin|Hin]; [discriminate Hin|]).
  by apply elem_of_nil in Hin.
Defined.

Example compare_known_methods :
  snd (compare hex_digest two_roots tree_A tree_B "size")
  = inr (SizeResult {| size_equal := true; na := 2; nb := 2 |}) /\
  snd (compare hex_digest two_roots tree_A tree_B "bin")
  = inr (BinaryResult {| binary_equal := false; diff := Some ["a/y.txt"] |}).
Proof. split; vm_compute; reflexivity. Qed.

(** ** Strings *)

Lemma app_cons c s1 s2 : String c s1 +:+ s2 = String c (s1 +:+ s2).
Proof. reflexivity. Qed.

Lemma app_empty_r s : s +:+ "" = s.
Proof. induction s as [|c s IH]; [done|]. by rewrite app_cons, IH. Qed.

Lemma app_assoc_str s1 s2 s3 : (s1 +:+ s2) +:+ s3 = s1 +:+ (s2 +:+ s3).
Proof. induction s1 as [|c s1 IH]; [done|]. by rewrite !app_cons, IH. Qed.

Lemma length_app_str s1 s2 :
  String.length (s1 +:+ s2) = String.length s1 + String.length s2.
Proof. induction s1 as [|c s1 IH]; [done|]. rewrite app_cons. simpl. by rewrite IH. Qed.

Lemma slice_from_app s1 s2 : Str.slice_from (String.length s1) (s1 +:+ s2) = s2.
Proof. induction s1 as [|c s1 IH]; [by destruct s2|]. by rewrite app_cons. Qed.

Lemma endswith_cons p c s :
  Str.endswith p (String c s) = String.eqb (String c s) p || Str.endswith p s.
Proof. simpl. by destruct (String.eqb (String c s) p). Qed.

(** A string that ends with the separator, read from its end. *)
Lemma endswith_slash_app s1 s2 :
  s2 <> "" -> Str.endswith "/" (s1 +:+ s2) = Str.endswith "/" s2.
Proof.
  intros Hne. induction s1 as [|c s1 IH]; [done|].
  rewrite app_cons, endswith_cons, IH.
  destruct (String.eqb_spec (String c (s1 +:+ s2)) "/") as [Heq|_]; [|done].
  injection Heq as _ Heq. destruct s1, s2; done.
Qed.

Lemma endswith_slash_snoc s : Str.endswith "/" (s +:+ "/") = true.
Proof. by rewrite endswith_slash_app. Qed.

(** ** Path arguments *)

(** C8 at a failing input.  For the path [/] the trailing separator is cut
    first, what is left is the empty string, which is taken for a relative
    path: the root path is the working directory followed by the separator,
    so it ends with the separator. *)
Theorem parse_path_root_ends_with_separator (cwd : string) :
  _parse_path_argument cwd "/" = cwd +:+ "/" /\
  Str.endswith "/" (_parse_path_argument cwd "/") = true.
Proof.
  assert (_parse_path_argument cwd "/" = cwd +:+ "/") as ->; [reflexivity|].
  split; [done | apply endswith_slash_snoc].
Qed.

Example parse_root_segments :
  _parse_path_argument "/home/u" "/" = "/home/u/" /\
  last_elem (Str.split "/" (_parse_path_argument "/home/u" "/")) = inr "" /\
  _parse_path_argument "/home/u" "data//" = "/home/u/data/" /\
  _parse_path_argument "/home/u" "//" = "/".
Proof. repeat split. Qed.

(** * Further properties of the module *)

(** ** Filtering *)

Section FilterLaws.
Context `{Regex}.

Lemma filter_loop_sublist expression invert names filtered l :
  filter_loop expression invert names filtered = inr l ->
  exists kept, l = filtered ++ kept /\ kept `sublist_of` names.
Proof.
  revert filtered. induction names as [|name rest IH]; intros filtered Hl.
  - injection Hl as <-. exists []. by rewrite app_nil_r.
  - cbn [filter_loop] in Hl.
    destruct (re_fullmatch expression name) as [e|m]; [discriminate|].
    destruct invert, m; cbn [negb] in Hl;
      apply IH in Hl as (kept & -> & Hsub).
    + exists kept. split; [done | by constructor].
    + exists (name :: kept). split; [by rewrite <- app_assoc | by constructor].
    + exists (name :: kept). split; [by rewrite <- app_assoc | by constructor].
    + exists kept. split; [done | by constructor].
Qed.

Lemma filter_copy_inv (t c t' : Tree) (E : string) (regex invert : bool) :
  filter t E false regex invert = (inr (Some c), t') ->
  exists filtered,
    filter_loop (effective_pattern regex E) invert (elements t) [] = inr filtered /\
    t' = t /\
    c = append_filter (set_elements t filtered)
          (if invert then "!><" +:+ effective_pattern regex E
           else effective_pattern regex E).
Proof.
  unfold filter. intros Hf.
  destruct (filter_loop _ _ _ _) as [e|filtered]; [discriminate|].
  injection Hf as <- <-. by exists filtered.
Qed.

(** X1.  The copy that [filter] returns keeps the elements in the order they had:
    its elements are a sublist of those of the receiver.  So it has no more
    elements, and none twice if the receiver had none twice.  Class, name
    and root path are those of the receiver, and the log of filters is the
    receiver's with one more entry. *)
Theorem filter_copy_sublist (t c t' : Tree) (E : string) (regex invert : bool) :
  filter t E false regex invert = (inr (Some c), t') ->
  elements c `sublist_of` elements t /\
  size c <= size t /\
  (NoDup (elements t) -> NoDup (elements c)) /\
  cls c = cls t /\ name c = name t /\ path c = path t /\
  applied_filters c
  = applied_filters t
    ++ [if invert then "!><" +:+ effective_pattern regex E
        else effective_pattern regex E].
Proof.
  intros Hf. apply filter_copy_inv in Hf as (filtered & Hloop & _ & ->).
  apply filter_loop_sublist in Hloop as (kept & -> & Hsub).
  cbn. repeat split; try done.
  - unfold size; cbn. by apply sublist_length.
  - intros Hnd. by eapply sublist_NoDup.
Qed.

(** X2.  With [inplace] the receiver becomes the tree that the call without
    [inplace] returns; without [inplace] the receiver is left as it was; and
    the two calls raise together. *)
Theorem filter_inplace_is_copy (t : Tree) (E : string) (regex invert : bool) :
  match filter t E false regex invert with
  | (inr (Some c), t') => t' = t /\ filter t E true regex invert = (inr None, c)
  | (inr None, _) => False
  | (inl e, t') => t' = t /\ filter t E true regex invert = (inl e, t)
  end.
Proof.
  unfold filter. by destruct (filter_loop _ _ _ _) as [e|filtered].
Qed.

Lemma survivors_idem p invert names :
  survivors p invert (survivors p invert names) = survivors p invert names.
Proof.
  unfold survivors. induction names as [|x l IH]; [done|]. cbn.
  destruct (xorb invert (pattern_fullmatch p x)) eqn:Hx; [|done].
  cbn. by rewrite Hx, IH.
Qed.

Lemma survivors_comm p1 i1 p2 i2 names :
  survivors p1 i1 (survivors p2 i2 names) = survivors p2 i2 (survivors p1 i1 names).
Proof.
  unfold survivors. induction names as [|x l IH]; [done|]. cbn.
  destruct (xorb i2 (pattern_fullmatch p2 x)) eqn:H2,
           (xorb i1 (pattern_fullmatch p1 x)) eqn:H1; cbn;
    rewrite ?H1, ?H2, ?IH; done.
Qed.

Lemma survivors_opposite p invert names :
  survivors p (negb invert) (survivors p invert names) = [].
Proof.
  unfold survivors. induction names as [|x l IH]; [done|]. cbn.
  destruct invert, (pattern_fullmatch p x) eqn:Hx; cbn; rewrite ?Hx; done.
Qed.

(** X3.  Filtering the returned copy again with the same arguments changes no
    element; only the log gets the entry a second time. *)
Theorem filter_twice (t c : Tree) (E : string) (regex invert : bool) :
  filter t E false regex invert = (inr (Some c), t) ->
  exists c2,
    filter c E false regex invert = (inr (Some c2), c) /\
    elements c2 = elements c /\
    applied_filters c2
    = applied_filters c
      ++ [if invert then "!><" +:+ effective_pattern regex E
          else effective_pattern regex E].
Proof.
  intros Hf.
  destruct (re_compile (effective_pattern regex E)) as [p|] eqn:Hp.
  - rewrite (filter_compiled _ _ p _ _ _ Hp) in Hf. cbn in Hf.
    injection Hf as <-.
    rewrite (filter_compiled _ _ p _ _ _ Hp). cbn.
    eexists. split; [reflexivity|]. split; [|done].
    unfold elements; cbn. apply survivors_idem.
  - apply filter_copy_inv in Hf as (filtered & Hloop & _ & ->).
    destruct (elements t) as [|x l] eqn:Hel.
    + injection Hloop as <-. unfold filter, elements. cbn.
      eexists. split; [reflexivity|]. done.
    + by rewrite filter_loop_malformed in Hloop.
Qed.

(** X4.  Two filters whose patterns compile can be applied in either order: the
    elements that remain are the same, in the same order. *)
Theorem filter_commute (t : Tree) (E1 E2 : string) (r1 i1 r2 i2 : bool) :
  is_Some (re_compile (effective_pattern r1 E1)) ->
  is_Some (re_compile (effective_pattern r2 E2)) ->
  exists c1 c12 c2 c21,
    filter t E1 false r1 i1 = (inr (Some c1), t) /\
    filter c1 E2 false r2 i2 = (inr (Some c12), c1) /\
    filter t E2 false r2 i2 = (inr (Some c2), t) /\
    filter c2 E1 false r1 i1 = (inr (Some c21), c2) /\
    elements c12 = elements c21.
Proof.
  intros [p1 Hp1] [p2 Hp2].
  rewrite !(filter_compiled _ _ p1 _ _ _ Hp1), !(filter_compiled _ _ p2 _ _ _ Hp2).
  cbn. eexists _, _, _, _.
  rewrite (filter_compiled _ _ p2 _ _ _ Hp2), (filter_compiled _ _ p1 _ _ _ Hp1).
  cbn. repeat (split; [reflexivity|]).
  unfold elements; cbn. apply survivors_comm.
Qed.

(** X5.  What a filter kept, the opposite filter rejects: filtering the copy
    with [invert] flipped leaves no element. *)
Theorem filter_then_opposite (t : Tree) (E : string) (regex invert : bool) :
  is_Some (re_compile (effective_pattern regex E)) ->
  exists c c',
    filter t E false regex invert = (inr (Some c), t) /\
    filter c E false regex (negb invert) = (inr (Some c'), c) /\
    elements c' = [].
Proof.
  intros [p Hp]. rewrite (filter_compiled _ _ p _ _ _ Hp). cbn.
  eexists _, _. split; [reflexivity|].
  rewrite (filter_compiled _ _ p _ _ _ Hp). cbn. split; [reflexivity|].
  unfold elements; cbn. apply survivors_opposite.
Qed.

End FilterLaws.

Lemma filter_copy_sublist_witness :
  elements (mkTree Filetree_cls "" "/r" "/" "/r" ["a.log"; "c.log"] [".*log.*"])
    `sublist_of` ["a.log"; "b.txt"; "c.log"].
Proof.
  apply (@filter_copy_sublist PyRe.engine
           (tree_of Filetree_cls "/r" ["a.log"; "b.txt"; "c.log"]) _
           (tree_of Filetree_cls "/r" ["a.log"; "b.txt"; "c.log"])
           "log" false false).
  reflexivity.
Defined.

Lemma filter_twice_witness :
  exists c2,
    @filter PyRe.engine
      (mkTree Filetree_cls "" "/r" "/" "/r" ["a.log"; "c.log"] [".*log.*"])
      "log" false false false
    = (inr (Some c2),
       mkTree Filetree_cls "" "/r" "/" "/r" ["a.log"; "c.log"] [".*log.*"]) /\
    elements c2 = ["a.log"; "c.log"] /\
    applied_filters c2 = [".*log.*"; ".*log.*"].
Proof.
  apply (@filter_twice PyRe.engine
           (tree_of Filetree_cls "/r" ["a.log"; "b.txt"; "c.log"])).
  reflexivity.
Defined.

Lemma filter_commute_witness :
  exists c1 c12 c2 c21,
    @filter PyRe.engine (tree_of Filetree_cls "/r" ["a.log"; "b.txt"; "c.log"])
      "log" false false false
    = (inr (Some c1), tree_of Filetree_cls "/r" ["a.log"; "b.txt"; "c.log"]) /\
    @filter PyRe.engine c1 "a.*" false true true = (inr (Some c12), c1) /\
    @filter PyRe.engine (tree_of Filetree_cls "/r" ["a.log"; "b.txt"; "c.log"])
      "a.*" false true true
    = (inr (Some c2), tree_of Filetree_cls "/r" ["a.log"; "b.txt"; "c.log"]) /\
    @filter PyRe.engine c2 "log" false false false = (inr (Some c21), c2) /\
    elements c12 = elements c21.
Proof.
  apply (@filter_commute PyRe.engine); cbn; eexists; reflexivity.
Defined.

Lemma filter_then_opposite_witness :
  exists c c',
    @filter PyRe.engine (tree_of Filetree_cls "/r" ["a.log"; "b.txt"; "c.log"])
      "log" false false false
    = (inr (Some c), tree_of Filetree_cls "/r" ["a.log"; "b.txt"; "c.log"]) /\
    @filter PyRe.engine c "log" false false true = (inr (Some c'), c) /\
    elements c' = [].
Proof.
  apply (@filter_then_opposite PyRe.engine
           (tree_of Filetree_cls "/r" ["a.log"; "b.txt"; "c.log"]) "log" false false).
  cbn. eexists. reflexivity.
Defined.

(** ** Comparing the sets of elements *)

Lemma set_equal_iff (tree_a tree_b : Tree) :
  set_equal (compare_set tree_a tree_b) = true
  <-> forall x, x ∈ elements tree_a <-> x ∈ elements tree_b.
Proof.
  unfold compare_set. case_bool_decide as Heq; cbn.
  - split; [|done]. intros _ x.
    by rewrite <- !(elem_of_list_to_set (C:=gset string)), Heq.
  - split; [done|]. intros Hmem. exfalso. apply Heq.
    apply set_eq. intros x. by rewrite !elem_of_list_to_set.
Qed.

(** X6.  [compare_set] reports equality exactly when the two trees have the same
    set of elements, whatever the order and the repetitions in their lists.
    Its two lists hold, each once, the elements of one tree that the other
    lacks: [missing_a] those of [tree_b] not in [tree_a], [missing_b] those
    of [tree_a] not in [tree_b]. *)
Theorem compare_set_spec (tree_a tree_b : Tree) :
  (set_equal (compare_set tree_a tree_b) = true
   <-> forall x, x ∈ elements tree_a <-> x ∈ elements tree_b) /\
  (forall x, x ∈ missing_a (compare_set tree_a tree_b)
             <-> x ∈ elements tree_b /\ x ∉ elements tree_a) /\
  (forall x, x ∈ missing_b (compare_set tree_a tree_b)
             <-> x ∈ elements tree_a /\ x ∉ elements tree_b) /\
  NoDup (missing_a (compare_set tree_a tree_b)) /\
  NoDup (missing_b (compare_set tree_a tree_b)).
Proof.
  split; [apply set_equal_iff|].
  unfold compare_set. case_bool_decide as Heq; cbn.
  - assert (forall x, x ∈ elements tree_a <-> x ∈ elements tree_b) as Hmem.
    { intros x. by rewrite <- !(elem_of_list_to_set (C:=gset string)), Heq. }
    split; [|split; [|split; constructor]].
    + intros x. rewrite elem_of_nil, Hmem. tauto.
    + intros x. rewrite elem_of_nil, Hmem. tauto.
  - split; [|split; [|split; apply NoDup_elements]].
    + intros x. unfold set_iter.
      by rewrite elem_of_elements, elem_of_difference, !elem_of_list_to_set.
    + intros x. unfold set_iter.
      by rewrite elem_of_elements, elem_of_difference, !elem_of_list_to_set.
Qed.

(** X7.  Swapping the trees swaps the two lists and keeps the verdict. *)
Theorem compare_set_swap (tree_a tree_b : Tree) :
  set_equal (compare_set tree_b tree_a) = set_equal (compare_set tree_a tree_b) /\
  missing_a (compare_set tree_b tree_a) ≡ₚ missing_b (compare_set tree_a tree_b) /\
  missing_b (compare_set tree_b tree_a) ≡ₚ missing_a (compare_set tree_a tree_b).
Proof.
  unfold compare_set.
  destruct (decide ((list_to_set (elements tree_a) : gset string)
                    = list_to_set (elements tree_b))) as [Heq|Hne].
  - rewrite (bool_decide_eq_true_2 _ Heq).
    rewrite (bool_decide_eq_true_2 _ (eq_sym Heq)). done.
  - rewrite (bool_decide_eq_false_2 _ Hne).
    rewrite bool_decide_eq_false_2 by (intros Heq; by apply Hne). done.
Qed.

(** X8.  For two trees whose lists of elements are sorted and without
    repetition, as the constructors leave them for a well-formed directory,
    the verdict of [compare_set] means that the two lists are the same, and
    then [compare_size] finds the trees equal too. *)
Theorem compare_set_equal_sorted (tree_a tree_b : Tree) :
  Sorted String.le (elements tree_a) -> Sorted String.le (elements tree_b) ->
  NoDup (elements tree_a) -> NoDup (elements tree_b) ->
  set_equal (compare_set tree_a tree_b) = true ->
  elements tree_a = elements tree_b /\
  size_equal (compare_size tree_a tree_b) = true.
Proof.
  intros Sa Sb Ha Hb Heq.
  pose proof (proj1 (set_equal_iff tree_a tree_b) Heq) as Hmem.
  assert (elements tree_a = elements tree_b) as Hel.
  { apply (Sorted_unique String.le); [done|done|]. by apply NoDup_Permutation. }
  split; [done|].
  unfold compare_size, size. unfold elements in Hel. rewrite Hel.
  cbn. by rewrite Nat.eqb_refl.
Qed.

Lemma compare_set_equal_sorted_witness :
  elements (tree_of Filetree_cls "/A" ["a"; "b"])
  = elements (tree_of Filetree_cls "/B" ["a"; "b"]) /\
  size_equal (compare_size (tree_of Filetree_cls "/A" ["a"; "b"])
                           (tree_of Filetree_cls "/B" ["a"; "b"])) = true.
Proof.
  apply compare_set_equal_sorted.
  - repeat constructor.
  - repeat constructor.
  - apply (bool_decide_unpack _). vm_compute. reflexivity.
  - apply (bool_decide_unpack _). vm_compute. reflexivity.
  - vm_compute. reflexivity.
Defined.

(** ** Paths *)

Lemma app_empty_l (s : string) : "" +:+ s = s.
Proof. reflexivity. Qed.

Lemma split_not_nil sep s : Str.split sep s <> [].
Proof.
  destruct s as [|c s]; cbn; [done|].
  destruct (Ascii.eqb c sep); [done|]. by destruct (Str.split sep s).
Qed.

Lemma split_app sep s1 s2 :
  Str.split sep (s1 +:+ String sep s2) = Str.split sep s1 ++ Str.split sep s2.
Proof.
  induction s1 as [|c s1 IH].
  - rewrite app_empty_l. cbn. by rewrite Ascii.eqb_refl.
  - rewrite app_cons. cbn [Str.split]. rewrite IH.
    destruct (Ascii.eqb c sep); [done|].
    pose proof (split_not_nil sep s1). by destruct (Str.split sep s1).
Qed.

Lemma split_no_sep sep d :
  Str.contains_char sep d = false -> Str.split sep d = [d].
Proof.
  induction d as [|c d IH]; [done|]. cbn.
  intros [Hc Hd]%orb_false_iff. by rewrite Hc, (IH Hd).
Qed.

Lemma split_singleton_empty sep s : Str.split sep s = [""] -> s = "".
Proof.
  destruct s as [|c s]; [done|]. cbn.
  pose proof (split_not_nil sep s).
  destruct (Ascii.eqb c sep); [|by destruct (Str.split sep s)].
  intros [= Hs]. done.
Qed.

(** Splitting at the separator and joining with it gives the string back. *)
Lemma join_split sep s : Str.join (String sep "") (Str.split sep s) = s.
Proof.
  induction s as [|c s IH]; [done|]. cbn [Str.split].
  pose proof (split_not_nil sep s) as Hne.
  destruct (Ascii.eqb_spec c sep) as [->|_];
    destruct (Str.split sep s) as [|w ws]; try done.
  - change (String sep (Str.join (String sep "") (w :: ws)) = String sep s).
    by rewrite IH.
  - destruct ws as [|w2 ws].
    + cbn in *. by rewrite IH.
    + change (String c (Str.join (String sep "") (w :: w2 :: ws)) = String c s).
      by rewrite IH.
Qed.

Lemma snoc_of_not_nil {A} (l : list A) : l <> [] -> exists l' x, l = l' ++ [x].
Proof.
  destruct l as [|a l] using rev_ind; [done|]. intros _. by exists l, a.
Qed.

Lemma seperate_path_not_empty (p : string) :
  p <> "" -> exists lp rd, _seperate_path p = inr (lp, rd).
Proof.
  intros Hp. unfold _seperate_path, last_elem, last_but_one.
  destruct (snoc_of_not_nil _ (split_not_nil "/" p)) as (l & x & Hl).
  rewrite Hl, reverse_snoc.
  destruct (String.eqb_spec x "") as [->|Hx]; [|by eexists _, _].
  destruct l as [|y l _] using rev_ind.
  - by apply (split_singleton_empty "/"%char) in Hl.
  - rewrite reverse_snoc. by eexists _, _.
Qed.

(** X9.  [_seperate_path] raises for the empty path only, and then [IndexError]:
    the list of segments of every other path has a last element that is not
    empty, or a last but one. *)
Theorem seperate_path_raises_iff (p : string) :
  match _seperate_path p with
  | inl e => e = IndexError /\ p = ""
  | inr _ => p <> ""
  end.
Proof.
  destruct (decide (p = "")) as [->|Hp]; [done|].
  by destruct (seperate_path_not_empty p Hp) as (lp & rd & ->).
Qed.

Lemma parse_path_not_empty (cwd path : string) : _parse_path_argument cwd path <> "".
Proof.
  unfold _parse_path_argument, Str.startswith.
  set (p := if Str.endswith "/" path then Str.drop_last path else path).
  destruct (String.prefix "/" p) eqn:Hp; [by destruct p|].
  destruct (String.prefix "./" p); cbn [Str.join]; by destruct cwd.
Qed.

(** X10.  Constructing a [Basetree] never raises: the root path that
    [_parse_path_argument] computes is not empty, so [_seperate_path] finds
    its directory.  The tree has that root path, the name given, no element
    and no filter. *)
Theorem Basetree_init_never_raises (env : os_env) (path name : string) :
  exists lp rd,
    Basetree_init env path name
    = inr (mkTree Basetree_cls name (_parse_path_argument (getcwd env) path)
                  lp rd [] []).
Proof.
  unfold Basetree_init.
  destruct (seperate_path_not_empty _ (parse_path_not_empty (getcwd env) path))
    as (lp & rd & ->).
  by exists lp, rd.
Qed.

Lemma valid_name_inv (d : string) :
  valid_name d = true -> d <> "" /\ Str.contains_char "/" d = false.
Proof.
  unfold valid_name. intros [Hd Hc]%andb_true_iff. split.
  - intros ->. done.
  - by apply negb_true_iff.
Qed.

Lemma inner_cons_snoc (a x : string) (l : list string) : inner (a :: l ++ [x]) = l.
Proof.
  unfold inner. cbn [tail]. rewrite reverse_snoc. cbn [tail].
  apply reverse_involutive.
Qed.

(** X11.  The two parts that [_seperate_path] returns for the path of a directory
    [d] below a directory [lead]: the name [d], and [lead] closed by a
    separator.  For a directory right below the root of the filesystem the
    leading path is [//], not [/]. *)
Theorem seperate_path_parts (d : string) :
  valid_name d = true ->
  _seperate_path ("/" +:+ d) = inr ("//", d) /\
  forall lead, Str.startswith "/" lead = true ->
    _seperate_path (lead +:+ "/" +:+ d) = inr (lead +:+ "/", d).
Proof.
  intros [Hd Hc]%valid_name_inv.
  assert (forall rest,
    _seperate_path (String "/" rest +:+ "/" +:+ d) = inr (String "/" rest +:+ "/", d))
    as Hrest.
  { intros rest. unfold _seperate_path.
    change (String "/" rest +:+ "/" +:+ d) with (String "/" rest +:+ String "/" d).
    rewrite split_app, (split_no_sep _ _ Hc). cbn [Str.split].
    rewrite Ascii.eqb_refl. cbn [app].
    rewrite inner_cons_snoc, (join_split "/"%char rest).
    unfold last_elem. rewrite app_comm_cons, reverse_snoc.
    by destruct (String.eqb_spec d ""). }
  split.
  - unfold _seperate_path.
    change ("/" +:+ d) with (String "/" d). cbn [Str.split].
    rewrite Ascii.eqb_refl, (split_no_sep _ _ Hc).
    cbn. by destruct (String.eqb_spec d "").
  - intros [|c rest] Hlead; [done|].
    unfold Str.startswith in Hlead. cbn [String.prefix] in Hlead.
    destruct (ascii_dec "/" c) as [<-|]; [apply Hrest | done].
Qed.

Lemma seperate_path_parts_witness :
  _seperate_path "/data" = inr ("//", "data") /\
  forall lead, Str.startswith "/" lead = true ->
    _seperate_path (lead +:+ "/" +:+ "data") = inr (lead +:+ "/", "data").
Proof. apply (seperate_path_parts "data"). reflexivity. Defined.

Lemma endswith_slash_inv (s : string) :
  Str.endswith "/" s = true -> s = Str.drop_last s +:+ "/".
Proof.
  induction s as [|c s IH]; [done|]. rewrite endswith_cons.
  destruct s as [|c' s'].
  - destruct (String.eqb_spec (String c "") "/") as [->|]; done.
  - destruct (String.eqb_spec (String c (String c' s')) "/") as [|_]; [done|].
    intros Hs%IH.
    change (Str.drop_last (String c (String c' s')))
      with (String c (Str.drop_last (String c' s'))).
    rewrite app_cons. by rewrite <- Hs.
Qed.

Lemma endswith_double_snoc (s : string) :
  Str.endswith "//" (s +:+ "/") = Str.endswith "/" s.
Proof.
  induction s as [|c s IH]; [done|].
  rewrite app_cons, !endswith_cons, IH. f_equal.
  destruct (String.eqb_spec (String c s) "/") as [[= -> ->]|Hne]; [done|].
  apply String.eqb_neq. intros [= -> Hs]. by destruct s as [|? [|? ?]].
Qed.

Lemma endswith_double_single (s : string) :
  Str.endswith "//" s = true -> Str.endswith "/" s = true.
Proof.
  induction s as [|c s IH]; [done|]. rewrite !endswith_cons.
  intros [Hs|Hs]%orb_true_iff.
  - apply String.eqb_eq in Hs. by injection Hs as -> ->.
  - by rewrite (IH Hs), orb_true_r.
Qed.

Lemma parse_path_join_ends (cwd p : string) :
  Str.endswith "/" (Str.join "/" [cwd; p]) = true
  <-> p = "" \/ Str.endswith "/" p = true.
Proof.
  change (Str.join "/" [cwd; p]) with (cwd +:+ String "/" p).
  rewrite endswith_slash_app by done. rewrite endswith_cons, orb_true_iff.
  destruct (String.eqb_spec (String "/" p) "/") as [[= ->]|Hne].
  - split; intros _; by left.
  - split; (intros [Hp|Hp]; [|by right]); [done | by subst p].
Qed.

Lemma endswith_dot_slash (r : string) :
  Str.endswith "/" (String "." (String "/" r)) = String.eqb r "" || Str.endswith "/" r.
Proof. rewrite !endswith_cons. reflexivity. Qed.

(** X12.  The root path that [_parse_path_argument] computes ends with a separator
    for three kinds of argument only: the empty path, the path [/], and a
    path that ends with two separators.  For every other argument it does
    not end with a separator. *)
Theorem parse_path_trailing_separator (cwd path : string) :
  Str.endswith "/" (_parse_path_argument cwd path) = true
  <-> path = "" \/ path = "/" \/ Str.endswith "//" path = true.
Proof.
  unfold _parse_path_argument, Str.startswith.
  set (p := if Str.endswith "/" path then Str.drop_last path else path).
  assert (p = "" \/ Str.endswith "/" p = true
          <-> path = "" \/ path = "/" \/ Str.endswith "//" path = true) as <-.
  { subst p. destruct (Str.endswith "/" path) eqn:Hpath.
    - apply endswith_slash_inv in Hpath. rewrite Hpath at 3 4 5.
      rewrite endswith_double_snoc.
      split.
      + intros [->|Hp]; [right; by left | by right; right].
      + intros [Hp|[Hp|Hp]]; [by destruct (Str.drop_last path) | | by right].
        left. by destruct (Str.drop_last path) as [|? [|? ?]].
    - split; [intros [->|Hp]; [by left | congruence]|].
      intros [->|[->|Hp]]; [by left | by cbn in Hpath |].
      apply endswith_double_single in Hp. congruence. }
  clearbody p.
  destruct (String.prefix "/" p) eqn:H1.
  - split; [tauto|]. intros [->|Hp]; done.
  - destruct (String.prefix "./" p) eqn:H2; [|apply parse_path_join_ends].
    destruct p as [|c1 [|c2 r]]; [done| |]; cbn [String.prefix] in H2;
      (destruct (ascii_dec "." c1) as [<-|]; [|done]); [done|].
    destruct (ascii_dec "/" c2) as [<-|]; [|done].
    cbn [Str.slice_from]. rewrite parse_path_join_ends, endswith_dot_slash.
    rewrite orb_true_iff, String.eqb_eq.
    split; [intros [->|Hr]; right; [by left | by right]|].
    by intros [|Hr].
Qed.

(** ** Building the trees *)

Lemma node_induction (P : node -> Prop) :
  (forall content, P (File content)) ->
  (forall readable entries,
     Forall (fun e => P e.2) entries -> P (Dir readable entries)) ->
  forall n, P n.
Proof.
  intros HFile HDir.
  refine (fix IH (n : node) : P n :=
            match n with
            | File content => HFile content
            | Dir readable entries =>
                HDir readable entries
                  ((fix go (l : list (string * node)) : Forall (fun e => P e.2) l :=
                      match l return Forall (fun e => P e.2) l with
                      | [] => List.Forall_nil _
                      | e :: l' => List.Forall_cons _ e l' (IH e.2) (go l')
                      end) entries)
            end).
Qed.

Lemma wf_node_Dir readable entries :
  wf_node (Dir readable entries) = true ->
  NoDup (map fst entries) /\
  Forall (fun e => valid_name e.1 = true /\ wf_node e.2 = true) entries.
Proof.
  cbn [wf_node]. intros [Hnd Hall]%andb_true_iff. split.
  - by apply bool_decide_eq_true in Hnd.
  - clear Hnd. induction entries as [|e l IH]; [constructor|].
    cbn [forallb] in Hall. apply andb_true_iff in Hall as [He Hl].
    constructor; [by apply andb_true_iff | by apply IH].
Qed.

Lemma endswith_contains (s : string) :
  Str.endswith "/" s = true -> Str.contains_char "/" s = true.
Proof.
  induction s as [|c s IH]; [done|]. rewrite endswith_cons. cbn [Str.contains_char].
  intros [Hs|Hs]%orb_true_iff.
  - apply String.eqb_eq in Hs. injection Hs as -> ->. done.
  - by rewrite (IH Hs), orb_true_r.
Qed.

(** A root that is not empty and does not end with a separator stays so
    when it is joined with a name. *)
Lemma join_valid_name (top d : string) :
  top <> "" -> Str.endswith "/" top = false -> valid_name d = true ->
  os_path_join top d = top +:+ "/" +:+ d /\
  top +:+ "/" +:+ d <> "" /\
  Str.endswith "/" (top +:+ "/" +:+ d) = false.
Proof.
  intros Htop Hend [Hd Hc]%valid_name_inv. split; [|split].
  - unfold os_path_join. rewrite Hend.
    by destruct (String.eqb_spec top "").
  - by destruct top.
  - change (top +:+ "/" +:+ d) with (top +:+ String "/" d).
    rewrite endswith_slash_app by done. rewrite endswith_cons.
    apply orb_false_iff. split.
    + apply String.eqb_neq. by intros [= ->].
    + destruct (Str.endswith "/" d) eqn:He; [|done].
      apply endswith_contains in He. congruence.
Qed.

Lemma create_abslist_cons root dirs files tree dirsonly :
  root <> "" ->
  _create_abslist ((root, dirs, files) :: tree) dirsonly
  = map (fun entry => root +:+ "/" +:+ entry) (if dirsonly then dirs else files)
    ++ _create_abslist tree dirsonly.
Proof.
  intros Hroot. unfold _create_abslist. cbn [flat_map]. f_equal.
  apply map_ext. intros entry. by destruct (String.eqb_spec root "").
Qed.

Lemma create_abslist_app t1 t2 dirsonly :
  _create_abslist (t1 ++ t2) dirsonly
  = _create_abslist t1 dirsonly ++ _create_abslist t2 dirsonly.
Proof. unfold _create_abslist. apply flat_map_app. Qed.

Lemma create_abslist_flat_map {A} (F : A -> list (string * list string * list string))
    (l : list A) dirsonly :
  _create_abslist (flat_map F l) dirsonly
  = flat_map (fun a => _create_abslist (F a) dirsonly) l.
Proof.
  induction l as [|a l IH]; [done|]. cbn [flat_map].
  by rewrite create_abslist_app, IH.
Qed.

Lemma map_flat_map {A B C} (h : B -> C) (g : A -> list B) (l : list A) :
  map h (flat_map g l) = flat_map (fun a => map h (g a)) l.
Proof.
  induction l as [|a l IH]; [done|]. cbn [flat_map]. by rewrite map_app, IH.
Qed.

(** The absolute paths that [_create_abslist] makes of a walk from [top]
    are the relative paths of the directory, each below [top]. *)
Lemma create_abslist_walk (dirsonly : bool) (n : node) :
  forall top, wf_node n = true -> top <> "" -> Str.endswith "/" top = false ->
  _create_abslist (os_walk top n) dirsonly
  = map (fun r => top +:+ "/" +:+ r) (rel_paths dirsonly n).
Proof.
  induction n as [content|readable entries IH] using node_induction;
    intros top Hwf Htop Hend; [done|].
  destruct readable; [|done].
  apply wf_node_Dir in Hwf as [_ Hwf].
  cbn [os_walk rel_paths].
  rewrite create_abslist_cons by done.
  rewrite map_app. f_equal.
  rewrite create_abslist_flat_map, map_flat_map.
  induction IH as [|[d child] l IHe _ IHl]; [done|].
  apply Forall_cons in Hwf as [[Hd Hchild] Hwf].
  cbn [flat_map]. rewrite (IHl Hwf). f_equal.
  cbn [fst snd] in *. destruct (is_dir child); [|done].
  destruct (join_valid_name top d Htop Hend Hd) as (-> & Hne & He).
  rewrite (IHe _ Hchild Hne He), map_map.
  apply map_ext. intros r. by rewrite !app_assoc_str.
Qed.

Lemma create_rellist_below (top : string) (l : list string) :
  _create_rellist (map (fun r => top +:+ "/" +:+ r) l) top = l.
Proof.
  unfold _create_rellist. rewrite map_map. rewrite <- (map_id l) at 2.
  apply map_ext. intros r.
  replace (String.length top + 1) with (String.length (top +:+ "/"))
    by (rewrite length_app_str; reflexivity).
  by rewrite <- app_assoc_str, slice_from_app.
Qed.

Lemma names_sublist (f : string * node -> bool) (entries : list (string * node)) :
  map fst (List.filter f entries) `sublist_of` map fst entries.
Proof.
  induction entries as [|e l IH]; [done|]. cbn.
  destruct (f e); cbn; by constructor.
Qed.

Lemma listed_names_sublist (dirsonly : bool) (entries : list (string * node)) :
  (if dirsonly then dir_names entries else file_names entries)
    `sublist_of` map fst entries.
Proof. destruct dirsonly; apply names_sublist. Qed.

Lemma elem_of_flat_map {A B} (f : A -> list B) (l : list A) (y : B) :
  y ∈ flat_map f l <-> exists a, a ∈ l /\ y ∈ f a.
Proof.
  induction l as [|a l IH]; cbn [flat_map].
  - split; [by intros ?%elem_of_nil | by intros (a & ?%elem_of_nil & _)].
  - rewrite elem_of_app, IH. split.
    + intros [Hy|(a' & Ha' & Hy)]; [exists a | exists a'];
        (split; [|done]); [by left | by right].
    + intros (a' & [->|Ha']%elem_of_cons & Hy); [by left|].
      right. by exists a'.
Qed.

Lemma contains_char_app c s1 s2 :
  Str.contains_char c (s1 +:+ s2) = Str.contains_char c s1 || Str.contains_char c s2.
Proof.
  induction s1 as [|c1 s1 IH]; [done|].
  rewrite app_cons. cbn [Str.contains_char]. by rewrite IH, orb_assoc.
Qed.

Lemma below_contains (d r : string) : Str.contains_char "/" (d +:+ "/" +:+ r) = true.
Proof.
  rewrite contains_char_app. change ("/" +:+ r) with (String "/" r).
  cbn [Str.contains_char]. by rewrite Ascii.eqb_refl, orb_true_r.
Qed.

(** A path below a name without separator tells the name. *)
Lemma below_inj (d1 d2 r1 r2 : string) :
  Str.contains_char "/" d1 = false -> Str.contains_char "/" d2 = false ->
  d1 +:+ "/" +:+ r1 = d2 +:+ "/" +:+ r2 -> d1 = d2 /\ r1 = r2.
Proof.
  revert d2. induction d1 as [|c1 d1 IH]; intros [|c2 d2] H1 H2 Heq.
  - by injection Heq.
  - rewrite app_cons in Heq. injection Heq as <- _.
    cbn in H2. done.
  - rewrite app_cons in Heq. injection Heq as -> _.
    cbn in H1. done.
  - rewrite !app_cons in Heq. injection Heq as -> Heq.
    cbn [Str.contains_char] in H1, H2.
    apply orb_false_iff in H1 as [_ H1]. apply orb_false_iff in H2 as [_ H2].
    by destruct (IH d2 H1 H2 Heq) as [-> ->].
Qed.

Lemma elem_of_below (dirsonly : bool) (e : string * node) (x : string) :
  x ∈ (if is_dir e.2 then map (fun r => e.1 +:+ "/" +:+ r) (rel_paths dirsonly e.2)
       else []) ->
  exists r, x = e.1 +:+ "/" +:+ r /\ r ∈ rel_paths dirsonly e.2.
Proof.
  destruct (is_dir e.2); [|by intros ?%elem_of_nil].
  intros (r & -> & Hr)%list_elem_of_fmap. by exists r.
Qed.

(** The relative paths of a well-formed directory differ from each other. *)
Lemma NoDup_rel_paths (dirsonly : bool) (n : node) :
  wf_node n = true -> NoDup (rel_paths dirsonly n).
Proof.
  induction n as [content|readable entries IH] using node_induction;
    intros Hwf; [constructor|].
  destruct readable; [|constructor].
  apply wf_node_Dir in Hwf as [Hnd Hwf]. cbn [rel_paths].
  apply NoDup_app. split; [|split].
  - exact (sublist_NoDup _ _ Hnd (listed_names_sublist _ _)).
  - intros x Hx (e & He & Hbelow)%elem_of_flat_map.
    apply elem_of_below in Hbelow as (r & -> & _).
    eapply elem_of_sublist in Hx; [|apply listed_names_sublist].
    apply list_elem_of_fmap in Hx as (e' & Hx & He').
    rewrite Forall_forall in Hwf.
    destruct (Hwf e' He') as [[_ Hc]%valid_name_inv _].
    rewrite <- Hx, below_contains in Hc. done.
  - induction IH as [|e l IHe _ IHl]; [constructor|].
    apply Forall_cons in Hwf as [[Hd Hchild] Hwf].
    cbn [map] in Hnd. apply NoDup_cons in Hnd as [Hfresh Hnd].
    cbn [flat_map]. apply NoDup_app. split; [|split; [|by apply IHl]].
    + destruct (is_dir e.2); [|constructor].
      apply NoDup_fmap_2_strong; [|by apply IHe].
      intros r1 r2 _ _ Heq.
      apply valid_name_inv in Hd as [_ Hc].
      by destruct (below_inj _ _ _ _ Hc Hc Heq).
    + intros x (r & -> & _)%elem_of_below (e' & He' & Hx)%elem_of_flat_map.
      apply elem_of_below in Hx as (r' & Heq & _).
      rewrite Forall_forall in Hwf.
      destruct (Hwf e' He') as [[_ Hc']%valid_name_inv _].
      apply valid_name_inv in Hd as [_ Hc].
      destruct (below_inj _ _ _ _ Hc Hc' Heq) as [Hname _].
      apply Hfresh. rewrite Hname. apply list_elem_of_fmap. by exists e'.
Qed.

(** A sorted list without repetition is strictly ascending. *)
Lemma Sorted_NoDup_strict (l : list string) :
  Sorted String.le l -> NoDup l -> Sorted (strict String.le) l.
Proof.
  intros Hs%Sorted_StronglySorted Hnd; [|apply _].
  apply StronglySorted_Sorted.
  induction Hs as [|x l Hs IH Hall]; [constructor|].
  apply NoDup_cons in Hnd as [Hx Hnd]. constructor; [by apply IH|].
  rewrite Forall_forall in Hall |- *. intros y Hy. split; [by apply Hall|].
  intros Hyx. apply Hx.
  by rewrite (anti_symm String.le x y (Hall y Hy) Hyx).
Qed.

Lemma sort_facts (l : list string) :
  NoDup l ->
  sort l ≡ₚ l /\ NoDup (sort l) /\ Sorted (strict String.le) (sort l) /\
  length (sort l) = base.size (list_to_set (sort l) : gset string).
Proof.
  intros Hnd. unfold sort.
  pose proof (merge_sort_Permutation String.le l) as Hp.
  assert (NoDup (merge_sort String.le l)) as Hnd' by (by rewrite Hp).
  split; [done|]. split; [done|]. split.
  - apply Sorted_NoDup_strict; [apply Sorted_merge_sort; apply _ | done].
  - by rewrite size_list_to_set.
Qed.

Lemma resolve_no_nul (env : os_env) (p : string) (n : node) :
  resolve env p = Some n -> has_nul p = false.
Proof. unfold resolve. by destruct (has_nul p). Qed.

Lemma walk_resolved (env : os_env) (top : string) (n : node) :
  resolve env top = Some n -> walk env top = inr (os_walk top n).
Proof.
  intros Hres. unfold walk. by rewrite (resolve_no_nul _ _ _ Hres), Hres.
Qed.

Lemma os_listdir_resolved (env : os_env) (p : string) (entries : list (string * node)) :
  resolve env p = Some (Dir true entries) -> os_listdir env p = inr (map fst entries).
Proof.
  intros Hres. unfold os_listdir. by rewrite (resolve_no_nul _ _ _ Hres), Hres.
Qed.

Lemma built_elements (dirsonly : bool) (abspath : string) (n : node) :
  abspath <> "" -> Str.endswith "/" abspath = false -> wf_node n = true ->
  sort (_create_rellist (_create_abslist (os_walk abspath n) dirsonly) abspath)
  = sort (rel_paths dirsonly n).
Proof.
  intros Hne Hend Hwf.
  by rewrite create_abslist_walk, create_rellist_below.
Qed.

(** X13.  The elements of a [Dirtree] built on a well-formed directory, for a
    root path that does not end with a separator: the relative paths of the
    directories that the walk reaches, sorted.  No path comes twice, the
    list is strictly ascending, and it is as long as its set is large. *)
Theorem Dirtree_init_elements (env : os_env) (path name : string) (n : node) :
  Str.endswith "/" (_parse_path_argument (getcwd env) path) = false ->
  resolve env (_parse_path_argument (getcwd env) path) = Some n ->
  wf_node n = true ->
  exists t, Dirtree_init env path name = inr t /\
    elements t = sort (rel_paths true n) /\
    elements t ≡ₚ rel_paths true n /\
    NoDup (elements t) /\
    Sorted (strict String.le) (elements t) /\
    length (elements t) = base.size (list_to_set (elements t) : gset string).
Proof.
  intros Hend Hres Hwf. unfold Dirtree_init, Basetree_init.
  pose proof (parse_path_not_empty (getcwd env) path) as Hne.
  destruct (seperate_path_not_empty _ Hne) as (lp & rd & ->).
  cbn [_abspath]. rewrite (walk_resolved _ _ _ Hres).
  eexists. split; [reflexivity|]. unfold elements. cbn [_elemlist set_elements].
  rewrite (built_elements true _ n Hne Hend Hwf).
  split; [done|]. by apply sort_facts, NoDup_rel_paths.
Qed.

(** X14.  The same for a [Filetree], which is built when the root can be listed:
    its elements are the relative paths of the files that the walk reaches,
    sorted; no path comes twice and the list is strictly ascending. *)
Theorem Filetree_init_elements (env : os_env) (path name : string)
    (entries : list (string * node)) :
  Str.endswith "/" (_parse_path_argument (getcwd env) path) = false ->
  resolve env (_parse_path_argument (getcwd env) path) = Some (Dir true entries) ->
  wf_node (Dir true entries) = true ->
  exists t, Filetree_init env path name = inr t /\
    elements t = sort (rel_paths false (Dir true entries)) /\
    elements t ≡ₚ rel_paths false (Dir true entries) /\
    NoDup (elements t) /\
    Sorted (strict String.le) (elements t) /\
    length (elements t) = base.size (list_to_set (elements t) : gset string).
Proof.
  intros Hend Hres Hwf. unfold Filetree_init, Basetree_init.
  pose proof (parse_path_not_empty (getcwd env) path) as Hne.
  destruct (seperate_path_not_empty _ Hne) as (lp & rd & ->).
  cbn [_abspath].
  rewrite (walk_resolved _ _ _ Hres), (os_listdir_resolved _ _ _ Hres).
  eexists. split; [reflexivity|]. unfold elements. cbn [_elemlist set_elements].
  rewrite (built_elements false _ _ Hne Hend Hwf).
  split; [done|]. by apply sort_facts, NoDup_rel_paths.
Qed.

Lemma two_roots_A_wf :
  wf_node (Dir true [("a", Dir true [("x.txt", File (bytes "1"));
                                     ("y.txt", File (bytes "2"))])]) = true.
Proof. vm_compute. reflexivity. Qed.

Lemma Dirtree_init_elements_witness :
  exists t, Dirtree_init two_roots "/A" "" = inr t /\
    elements t = ["a"] /\
    elements t ≡ₚ ["a"] /\
    NoDup (elements t) /\
    Sorted (strict String.le) (elements t) /\
    length (elements t) = base.size (list_to_set (elements t) : gset string).
Proof.
  apply (Dirtree_init_elements two_roots "/A" "" _ eq_refl eq_refl two_roots_A_wf).
Defined.

Lemma Filetree_init_elements_witness :
  exists t, Filetree_init two_roots "/A" "" = inr t /\
    elements t = ["a/x.txt"; "a/y.txt"] /\
    elements t ≡ₚ ["a/x.txt"; "a/y.txt"] /\
    NoDup (elements t) /\
    Sorted (strict String.le) (elements t) /\
    length (elements t) = base.size (list_to_set (elements t) : gset string).
Proof.
  apply (Filetree_init_elements two_roots "/A" "" _ eq_refl eq_refl two_roots_A_wf).
Defined.

Lemma walk_unlistable (env : os_env) (p : string) :
  os_listdir env p = inl OSError -> walk env p = inr [].
Proof.
  unfold os_listdir, walk. destruct (has_nul p); [done|].
  by destruct (resolve env p) as [[content|[|] entries]|].
Qed.

Lemma walk_nul (env : os_env) (p : string) :
  has_nul p = true -> walk env p = inl ValueError.
Proof. intros Hnul. unfold walk. by rewrite Hnul. Qed.

(** X15.  What [Dirtree] does with a root path that leads nowhere.  For a
    path with an embedded NUL the constructor raises [ValueError], which
    comes out of the walk.  For a root that is missing, is a file or cannot
    be listed it does not raise: the walk yields nothing, and the tree is an
    empty [Dirtree] with the parsed root path, the given name and no
    filter. *)
Theorem Dirtree_init_unusable_root (env : os_env) (path0 name0 : string) :
  (has_nul (_parse_path_argument (getcwd env) path0) = true ->
   Dirtree_init env path0 name0 = inl ValueError) /\
  (os_listdir env (_parse_path_argument (getcwd env) path0) = inl OSError ->
   exists t, Dirtree_init env path0 name0 = inr t /\
     cls t = Dirtree_cls /\ name t = name0 /\
     path t = _parse_path_argument (getcwd env) path0 /\
     elements t = [] /\ applied_filters t = []).
Proof.
  unfold Dirtree_init, Basetree_init.
  pose proof (parse_path_not_empty (getcwd env) path0) as Hne.
  destruct (seperate_path_not_empty _ Hne) as (lp & rd & ->).
  cbn [_abspath]. split.
  - intros Hnul. by rewrite (walk_nul _ _ Hnul).
  - intros Hl. rewrite (walk_unlistable _ _ Hl).
    eexists. split; [reflexivity|]. by repeat split.
Qed.

(** X16.  What [Filetree] does with such a root path.  For a path with an
    embedded NUL the constructor raises [ValueError], out of the walk.  For
    a root that is missing, is a file or cannot be listed the walk yields
    nothing and raises nothing, and the constructor raises [OSError], out
    of the call of [os.listdir] that ends [__init__]. *)
Theorem Filetree_init_unusable_root (env : os_env) (path0 name0 : string) :
  (has_nul (_parse_path_argument (getcwd env) path0) = true ->
   Filetree_init env path0 name0 = inl ValueError) /\
  (os_listdir env (_parse_path_argument (getcwd env) path0) = inl OSError ->
   walk env (_parse_path_argument (getcwd env) path0) = inr [] /\
   Filetree_init env path0 name0 = inl OSError).
Proof.
  unfold Filetree_init, Basetree_init.
  pose proof (parse_path_not_empty (getcwd env) path0) as Hne.
  destruct (seperate_path_not_empty _ Hne) as (lp & rd & ->).
  cbn [_abspath]. split.
  - intros Hnul. by rewrite (walk_nul _ _ Hnul).
  - intros Hl. by rewrite (walk_unlistable _ _ Hl), Hl.
Qed.

Lemma Dirtree_init_unusable_root_witness :
  Dirtree_init two_roots (String "/" (String "000" "x")) "" = inl ValueError /\
  exists t, Dirtree_init two_roots "/missing" "" = inr t /\ elements t = [].
Proof.
  split.
  - apply (Dirtree_init_unusable_root two_roots (String "/" (String "000" "x")) "").
    reflexivity.
  - destruct (proj2 (Dirtree_init_unusable_root two_roots "/missing" "") eq_refl)
      as (t & Ht & _ & _ & _ & Hempty & _).
    by exists t.
Defined.

Lemma Filetree_init_unusable_root_witness :
  Filetree_init two_roots (String "/" (String "000" "x")) "" = inl ValueError /\
  Filetree_init two_roots "/A/a/x.txt" "" = inl OSError.
Proof.
  split.
  - apply (Filetree_init_unusable_root two_roots (String "/" (String "000" "x")) "").
    reflexivity.
  - apply (Filetree_init_unusable_root two_roots "/A/a/x.txt" ""). reflexivity.
Defined.

Lemma entry_unique (entries : list (string * node)) (d : string) (n1 n2 : node) :
  NoDup (map fst entries) -> (d, n1) ∈ entries -> (d, n2) ∈ entries -> n1 = n2.
Proof.
  induction entries as [|[d' n'] l IH]; [by intros _ ?%elem_of_nil|].
  cbn [map fst]. intros [Hfresh Hnd]%NoDup_cons H1 H2.
  apply elem_of_cons in H1 as [H1|H1]; apply elem_of_cons in H2 as [H2|H2].
  - congruence.
  - injection H1 as <- <-. exfalso. apply Hfresh.
    apply list_elem_of_fmap. by exists (d, n2).
  - injection H2 as <- <-. exfalso. apply Hfresh.
    apply list_elem_of_fmap. by exists (d, n1).
  - by apply IH.
Qed.

(** Nothing below a subdirectory that cannot be listed is among the
    relative paths. *)
Lemma rel_paths_unlistable (dirsonly : bool) (entries : list (string * node))
    (d : string) (sub : list (string * node)) (r : string) :
  wf_node (Dir true entries) = true -> (d, Dir false sub) ∈ entries ->
  d +:+ "/" +:+ r ∉ rel_paths dirsonly (Dir true entries).
Proof.
  intros [Hnd Hwf]%wf_node_Dir Hd. cbn [rel_paths].
  rewrite Forall_forall in Hwf.
  destruct (Hwf _ Hd) as [[_ Hc]%valid_name_inv _]. cbn [fst] in Hc.
  intros [Hin|(e & He & Hin)%elem_of_flat_map]%elem_of_app.
  - eapply elem_of_sublist in Hin; [|apply listed_names_sublist].
    apply list_elem_of_fmap in Hin as (e & Heq & He).
    destruct (Hwf e He) as [[_ Hc']%valid_name_inv _].
    rewrite <- Heq, below_contains in Hc'. done.
  - apply elem_of_below in Hin as (r' & Heq & Hr').
    destruct (Hwf e He) as [[_ Hc']%valid_name_inv _].
    destruct (below_inj _ _ _ _ Hc Hc' Heq) as [Hname _].
    destruct e as [d' n']. cbn [fst snd] in *. subst d'.
    rewrite <- (entry_unique entries d _ _ Hnd Hd He) in Hr'.
    by apply elem_of_nil in Hr'.
Qed.

Lemma dir_names_elem (entries : list (string * node)) (d : string) (n : node) :
  (d, n) ∈ entries -> is_dir n = true -> d ∈ dir_names entries.
Proof.
  unfold dir_names. induction entries as [|e l IH]; [by intros ?%elem_of_nil|].
  intros [<-|Hin]%elem_of_cons Hn; cbn [List.filter snd].
  - rewrite Hn. by left.
  - destruct (is_dir e.2); [right|]; by apply IH.
Qed.

(** X17.  For a root path that does not end with a separator, a subdirectory
    of the root that cannot be listed does not make the constructors raise.
    Both trees are built without it: the [Dirtree] has the subdirectory as
    an element, and neither tree has an element below it. *)
Theorem init_skips_unlistable_subdirectory (env : os_env) (path name : string)
    (entries sub : list (string * node)) (d : string) :
  Str.endswith "/" (_parse_path_argument (getcwd env) path) = false ->
  resolve env (_parse_path_argument (getcwd env) path) = Some (Dir true entries) ->
  wf_node (Dir true entries) = true ->
  (d, Dir false sub) ∈ entries ->
  exists tf td,
    Filetree_init env path name = inr tf /\
    Dirtree_init env path name = inr td /\
    d ∈ elements td /\
    forall r, ((d +:+ "/" +:+ r) ∉ elements tf) /\ ((d +:+ "/" +:+ r) ∉ elements td).
Proof.
  intros Hend Hres Hwf Hd.
  unfold Filetree_init, Dirtree_init, Basetree_init.
  pose proof (parse_path_not_empty (getcwd env) path) as Hne.
  destruct (seperate_path_not_empty _ Hne) as (lp & rd & ->).
  cbn [_abspath].
  rewrite (walk_resolved _ _ _ Hres), (os_listdir_resolved _ _ _ Hres).
  eexists _, _. split; [reflexivity|]. split; [reflexivity|].
  unfold elements. cbn [_elemlist set_elements].
  rewrite !(built_elements _ _ _ Hne Hend Hwf).
  unfold sort. rewrite merge_sort_Permutation. split.
  - cbn [rel_paths]. apply elem_of_app. left. by eapply dir_names_elem.
  - intros r. rewrite !merge_sort_Permutation.
    split; by eapply rel_paths_unlistable.
Qed.

Lemma locked_root_wf :
  wf_node (Dir true [("a", File (bytes "1"));
                     ("secret", Dir false [("k", File (bytes "2"))])]) = true.
Proof. vm_compute. reflexivity. Qed.

Lemma init_skips_unlistable_subdirectory_witness :
  exists tf td,
    Filetree_init locked_env "/r" "" = inr tf /\
    Dirtree_init locked_env "/r" "" = inr td /\
    "secret" ∈ elements td /\
    forall r, (("secret" +:+ "/" +:+ r) ∉ elements tf) /\
              (("secret" +:+ "/" +:+ r) ∉ elements td).
Proof.
  apply (init_skips_unlistable_subdirectory locked_env "/r" "" _
           [("k", File (bytes "2"))] "secret" eq_refl eq_refl locked_root_wf).
  right. left.
Defined.

Lemma join_trailing (top d : string) :
  Str.endswith "/" top = true -> valid_name d = true ->
  os_path_join top d = top +:+ d /\
  top +:+ d <> "" /\
  Str.endswith "/" (top +:+ d) = false.
Proof.
  intros Hend [Hd Hc]%valid_name_inv. split; [|split].
  - unfold os_path_join. by rewrite Hend, orb_true_r.
  - by destruct top.
  - rewrite endswith_slash_app by done.
    destruct (Str.endswith "/" d) eqn:He; [|done].
    apply endswith_contains in He. congruence.
Qed.

Lemma slice_from_clipped (top d r : string) :
  d <> "" ->
  Str.slice_from (String.length top + 1) ((top +:+ d) +:+ "/" +:+ r)
  = Str.slice_from 1 d +:+ "/" +:+ r.
Proof.
  intros Hd. induction top as [|c top IH].
  - destruct d as [|c d]; [done|]. reflexivity.
  - rewrite !app_cons. apply IH.
Qed.

Lemma built_elements_trailing (dirsonly : bool) (abspath : string)
    (entries : list (string * node)) :
  Str.endswith "/" abspath = true ->
  wf_node (Dir true entries) = true ->
  _create_rellist (_create_abslist (os_walk abspath (Dir true entries)) dirsonly)
    abspath
  = clipped_paths dirsonly entries.
Proof.
  intros Hend [_ Hwf]%wf_node_Dir.
  assert (abspath <> "") as Hne by (by intros ->).
  unfold clipped_paths. cbn [os_walk].
  rewrite create_abslist_cons, create_abslist_flat_map by done.
  unfold _create_rellist at 1. rewrite map_app.
  fold (_create_rellist
          (map (fun entry => abspath +:+ "/" +:+ entry)
               (if dirsonly then dir_names entries else file_names entries))
          abspath).
  rewrite create_rellist_below. f_equal.
  rewrite map_flat_map.
  induction Hwf as [|[d child] l [Hd Hchild] _ IHl]; [done|].
  cbn [flat_map]. rewrite IHl. f_equal.
  cbn [fst snd] in *. destruct (is_dir child); [|done].
  destruct (join_trailing abspath d Hend Hd) as (-> & Hne' & He).
  rewrite (create_abslist_walk _ _ _ Hchild Hne' He), map_map.
  apply map_ext. intros r. apply slice_from_clipped.
  by apply valid_name_inv in Hd as [Hd _].
Qed.

(** X18.  For a root path that ends with a separator, as the empty path and
    the path [/] give, the trees are built, but the paths below each
    subdirectory of the root lose the first character of the name of the
    subdirectory: [_create_rellist] cuts one character more than the walk
    has put between the root and the path.  The cut is counted in bytes
    here and in characters in the code, so the statement is for
    subdirectories whose names start with a character of one byte, where
    the two agree. *)
Theorem init_root_with_trailing_separator (env : os_env) (path name : string)
    (entries : list (string * node)) :
  Str.endswith "/" (_parse_path_argument (getcwd env) path) = true ->
  resolve env (_parse_path_argument (getcwd env) path) = Some (Dir true entries) ->
  wf_node (Dir true entries) = true ->
  Forall (fun e => is_dir e.2 = true -> starts_one_byte e.1 = true) entries ->
  exists tf td,
    Filetree_init env path name = inr tf /\
    Dirtree_init env path name = inr td /\
    elements tf = sort (clipped_paths false entries) /\
    elements td = sort (clipped_paths true entries).
Proof.
  intros Hend Hres Hwf _.
  unfold Filetree_init, Dirtree_init, Basetree_init.
  pose proof (parse_path_not_empty (getcwd env) path) as Hne.
  destruct (seperate_path_not_empty _ Hne) as (lp & rd & ->).
  cbn [_abspath].
  rewrite (walk_resolved _ _ _ Hres), (os_listdir_resolved _ _ _ Hres).
  eexists _, _. split; [reflexivity|]. split; [reflexivity|].
  unfold elements. cbn [_elemlist set_elements].
  by rewrite !(built_elements_trailing _ _ _ Hend Hwf).
Qed.

Lemma work_root_wf :
  wf_node (Dir true [("sa", Dir true [("x", File (bytes "1"))]);
                     ("ta", Dir true [("x", File (bytes "2"))])]) = true.
Proof. vm_compute. reflexivity. Qed.

Lemma work_root_one_byte :
  Forall (fun e : string * node => is_dir e.2 = true -> starts_one_byte e.1 = true)
    [("sa", Dir true [("x", File (bytes "1"))]);
     ("ta", Dir true [("x", File (bytes "2"))])].
Proof. repeat constructor. Qed.

Lemma init_root_with_trailing_separator_witness :
  exists tf td,
    Filetree_init work_env "/" "" = inr tf /\
    Dirtree_init work_env "/" "" = inr td /\
    elements tf = ["a/x"; "a/x"] /\
    elements td = ["sa"; "ta"].
Proof.
  apply (init_root_with_trailing_separator work_env "/" "" _
           eq_refl eq_refl work_root_wf work_root_one_byte).
Defined.

(** ** Comparing contents, and equality *)

Section BinaryFacts.
Variable md5 : hash_method.
Variable env : os_env.




Lemma elem_of_filter_bool (P : string -> bool) (l : list string) (x : string) :
  x ∈ List.filter P l <-> x ∈ l /\ P x = true.
Proof. rewrite !list_elem_of_In. apply filter_In. Qed.


Lemma shared_files (tree_a tree_b : Tree) (f : string) :
  f ∈ set_iter (comp_set tree_a tree_b)
  <-> f ∈ elements tree_a /\ f ∈ elements tree_b.
Proof.
  by rewrite elem_of_set_iter, comp_set_intersection, elem_of_intersection,
    !elem_of_list_to_set.
Qed.


End BinaryFacts.


Section EqualityFacts.
Variable md5 : hash_method.
Variable env : os_env.

Lemma compare_binary_method (self other : Tree) :
  compare md5 env self other "binary"
  = let '(l, r) := compare_binary md5 env self other md5 in
    (l, match r with inl e => inl e | inr b => inr (BinaryResult b) end).
Proof.
  unfold compare.
  change (String.eqb "binary" "size") with false.
  change (String.eqb "binary" "set") with false.
  rewrite (bool_decide_eq_true_2 ("binary" ∈ ["binary"; "bin"])) by left.
  destruct (compare_binary md5 env self other md5) as [l [e|b]]; [done|].
  cbn. by rewrite !app_nil_r.
Qed.

Lemma Filetree_eq_unfold (self other : Tree) :
  Filetree_eq md5 env self other
  = if set_equal (compare_set self other)
    then let '(l, r) := compare_binary md5 env self other md5 in
         (l, match r with inl e => inl e | inr b => inr (binary_equal b) end)
    else ([], inr false).
Proof.
  unfold Filetree_eq. rewrite compare_binary_method.
  change (compare md5 env self other "set")
    with (ret (SetResult (compare_set self other)) : IO compare_result).
  cbn [bind ret result_of app].
  destruct (set_equal (compare_set self other)); [|done].
  destruct (compare_binary md5 env self other md5) as [l [e|b]]; [done|].
  cbn. by rewrite app_nil_r.
Qed.

Lemma set_equal_false (self other : Tree) :
  ~ (forall x, x ∈ elements self <-> x ∈ elements other) ->
  set_equal (compare_set self other) = false.
Proof.
  intros Hne. destruct (set_equal (compare_set self other)) eqn:Heq; [|done].
  exfalso. apply Hne. by apply (proj1 (set_equal_iff self other)).
Qed.

(** X20.  [Dirtree.__eq__] reads nothing and never raises: two trees are equal
    when they have the same set of elements, whatever their roots, names
    and filters. *)
Theorem Dirtree_eq_same_elements (self other : Tree) :
  exists v, Dirtree_eq md5 env self other = ([], inr v) /\
    (v = true <-> forall x, x ∈ elements self <-> x ∈ elements other).
Proof.
  exists (set_equal (compare_set self other)).
  split; [reflexivity | apply set_equal_iff].
Qed.

(** X21.  [Filetree.__eq__] on trees whose sets of elements differ is false
    without a file being opened: the comparison of contents is not run. *)
Theorem Filetree_eq_short_circuit (self other : Tree) :
  ~ (forall x, x ∈ elements self <-> x ∈ elements other) ->
  Filetree_eq md5 env self other = ([], inr false).
Proof.
  intros Hne. by rewrite Filetree_eq_unfold, (set_equal_false _ _ Hne).
Qed.

(** X22.  [Filetree.__eq__] against a tree that is not a [Filetree] and has the
    same set of elements is true, with the warning of [compare_binary]: no
    content is compared. *)
Theorem Filetree_eq_other_class (self other : Tree) :
  cls other <> Filetree_cls ->
  (forall x, x ∈ elements self <-> x ∈ elements other) ->
  Filetree_eq md5 env self other
  = ([EWarn "UserWarning" "Binary Comparison for Dirtree's is meaningless"],
     inr true).
Proof.
  intros Hcls Hsame. rewrite Filetree_eq_unfold.
  rewrite (proj2 (set_equal_iff self other) Hsame).
  unfold compare_binary, isinstance.
  rewrite (bool_decide_eq_false_2 (cls other = Filetree_cls)) by done.
  by rewrite andb_false_r.
Qed.

(** X23.  [Filetree.__eq__] on two file trees whose shared files can be read
    returns, and it is true exactly when the trees have the same set of
    elements and every element has the same digest under the two roots. *)
Theorem Filetree_eq_contents (self other : Tree) :
  cls self = Filetree_cls -> cls other = Filetree_cls ->
  (forall f, f ∈ elements self -> f ∈ elements other ->
     is_Some (open_rb env (path self +:+ "/" +:+ f)) /\
     is_Some (open_rb env (path other +:+ "/" +:+ f))) ->
  exists l v, Filetree_eq md5 env self other = (l, inr v) /\
    (v = true <->
     (forall x, x ∈ elements self <-> x ∈ elements other) /\
     forall f, f ∈ elements self ->
       digest env md5 (path self +:+ "/" +:+ f)
       = digest env md5 (path other +:+ "/" +:+ f)).
Proof.
  intros Ha Hb Hread. rewrite Filetree_eq_unfold.
  destruct (set_equal (compare_set self other)) eqn:Heq.
  - pose proof (proj1 (set_equal_iff self other) Heq) as Hset.
    clear Heq. rename Hset into Heq.
    unfold compare_binary, isinstance.
    rewrite !bool_decide_eq_true_2 by done. cbn [andb negb].
    rewrite (binary_loop_readable md5 env);
      [|by intros f [? ?]%shared_files; apply Hread].
    cbn. eexists _, _. split; [reflexivity|].
    destruct (List.filter _ _) as [|g rest] eqn:Hfilter; cbn.
    + split; [intros _|done]. split; [done|]. intros f Hf.
      destruct (Hread f Hf (proj1 (Heq f) Hf)) as [Hfa Hfb].
      destruct (decide (digest env md5 (path self +:+ "/" +:+ f)
                        = digest env md5 (path other +:+ "/" +:+ f)))
        as [|Hne]; [done|].
      apply (differs_true md5 env _ _ _ Hfa Hfb) in Hne.
      assert (f ∈ List.filter (differs md5 env self other)
                    (set_iter (comp_set self other))) as Hin.
      { apply elem_of_filter_bool. split; [|done].
        apply shared_files. split; [done | by apply Heq]. }
      rewrite Hfilter in Hin. by apply elem_of_nil in Hin.
    + split; [done|]. intros [_ Hsame]. exfalso.
      assert (g ∈ List.filter (differs md5 env self other)
                    (set_iter (comp_set self other))) as Hin
        by (rewrite Hfilter; left).
      apply elem_of_filter_bool in Hin as [[Hga Hgb]%shared_files Hdiff].
      destruct (Hread g Hga Hgb) as [Hfa Hfb].
      apply (differs_true md5 env _ _ _ Hfa Hfb) in Hdiff.
      by apply Hdiff, Hsame.
  - eexists _, _. split; [reflexivity|]. split; [done|].
    intros [Hsame _]. apply (proj2 (set_equal_iff self other)) in Hsame.
    congruence.
Qed.



End EqualityFacts.

Lemma a_b_differ :
  ~ (forall x, x ∈ elements (tree_of Filetree_cls "/A" ["a"])
               <-> x ∈ elements (tree_of Filetree_cls "/B" ["b"])).
Proof.
  intros H. destruct (H "a") as [H1 _].
  assert ("a" ∈ elements (tree_of Filetree_cls "/B" ["b"])) as Hin
    by (apply H1; left).
  apply elem_of_cons in Hin as [Hin|Hin]; [discriminate Hin|].
  by apply elem_of_nil in Hin.
Qed.

Lemma Filetree_eq_short_circuit_witness :
  Filetree_eq hex_digest two_roots
    (tree_of Filetree_cls "/A" ["a"]) (tree_of Filetree_cls "/B" ["b"])
  = ([], inr false).
Proof. apply Filetree_eq_short_circuit, a_b_differ. Defined.

Lemma Filetree_eq_other_class_witness :
  Filetree_eq hex_digest two_roots tree_A
    (tree_of Dirtree_cls "/B" ["a/x.txt"; "a/y.txt"])
  = ([EWarn "UserWarning" "Binary Comparison for Dirtree's is meaningless"],
     inr true).
Proof.
  apply Filetree_eq_other_class.
  - discriminate.
  - intros x. reflexivity.
Defined.

Lemma Filetree_eq_contents_witness :
  exists l v, Filetree_eq hex_digest two_roots tree_A tree_B = (l, inr v) /\
    (v = true <->
     (forall x, x ∈ elements tree_A <-> x ∈ elements tree_B) /\
     forall f, f ∈ elements tree_A ->
       digest two_roots hex_digest (path tree_A +:+ "/" +:+ f)
       = digest two_roots hex_digest (path tree_B +:+ "/" +:+ f)).
Proof.
  apply (Filetree_eq_contents hex_digest two_roots tree_A tree_B
           eq_refl eq_refl two_roots_readable).
Defined.


(** ** Hashing a file *)

Lemma read_loop_streaming (m : hash_method) :
  (forall h, update m h [] = h) ->
  (forall h a b, update m h (a ++ b) = update m (update m h a) b) ->
  forall fuel file h,
    length file < fuel -> read_loop m fuel file h = update m h file.
Proof.
  intros Hnil Happ. induction fuel as [|fuel IH]; intros file h Hlt; [lia|].
  cbn [read_loop].
  destruct (take 1024 file) as [|b chunk] eqn:Hchunk.
  - destruct file; [by rewrite Hnil | done].
  - rewrite IH.
    + by rewrite <- Happ, <- Hchunk, take_drop.
    + rewrite length_drop. destruct file; [done|]. cbn in *. lia.
Qed.

(** X25.  For a digest that can be fed in pieces, the chunks in which [_hash]
    reads the file do not show: it opens the file and returns the digest of
    its whole content. *)
Theorem hash_whole_content (env : os_env) (m : hash_method)
    (filepath : string) (content : list byte) :
  (forall h, update m h [] = h) ->
  (forall h a b, update m h (a ++ b) = update m (update m h a) b) ->
  open_rb env filepath = Some content ->
  _hash env filepath m
  = ([EOpen filepath], inr (hexdigest m (update m (new m) content))).
Proof.
  intros Hnil Happ Hopen. rewrite _hash_unfold. unfold digest. rewrite Hopen.
  by rewrite (read_loop_streaming m Hnil Happ) by lia.
Qed.

Lemma hex_digest_nil (h : hasher hex_digest) : update hex_digest h [] = h.
Proof. apply app_nil_r. Qed.

Lemma hex_digest_app (h : hasher hex_digest) (a b : list byte) :
  update hex_digest h (a ++ b) = update hex_digest (update hex_digest h a) b.
Proof. apply (assoc (++)). Qed.

Lemma hash_whole_content_witness :
  _hash two_roots "/A/a/x.txt" hex_digest = ([EOpen "/A/a/x.txt"], inr "31").
Proof.
  apply (hash_whole_content two_roots hex_digest "/A/a/x.txt" (bytes "1")
           hex_digest_nil hex_digest_app eq_refl).
Defined.

Lemma read_loop_chunks (fuel : nat) :
  forall (file : list byte) (h : list (list byte)),
    length file < fuel ->
    exists chunks,
      read_loop chunk_recorder fuel file h = h ++ chunks ++ [[]] /\
      concat chunks = file /\
      Forall (fun c => 0 < length c <= 1024) chunks.
Proof.
  induction fuel as [|fuel IH]; intros file h Hlt; [lia|].
  cbn [read_loop].
  destruct (take 1024 file) as [|b chunk] eqn:Hchunk.
  - exists []. destruct file; [|done]. by repeat split.
  - assert (length (drop 1024 file) < fuel) as Hdrop.
    { rewrite length_drop. destruct file; [done|]. cbn in *. lia. }
    destruct (IH (drop 1024 file) (h ++ [b :: chunk]) Hdrop)
      as (chunks & Hrun & Hcat & Hall).
    exists ((b :: chunk) :: chunks). split; [|split].
    + cbn [update chunk_recorder] in *. rewrite Hrun.
      by rewrite <- (assoc (++)).
    + cbn [concat]. by rewrite Hcat, <- Hchunk, take_drop.
    + constructor; [|done]. split; [cbn; lia|].
      rewrite <- Hchunk, length_take. lia.
Qed.

(** X26.  What [_hash] feeds the hasher: the content of the file in pieces of at
    least one and at most 1024 bytes, in order, and after them one empty
    piece, the read at the end of the file. *)
Theorem hash_feeds_chunks (content : list byte) :
  exists chunks,
    read_loop chunk_recorder (S (length content)) content (new chunk_recorder)
    = chunks ++ [[]] /\
    concat chunks = content /\
    Forall (fun c => 0 < length c <= 1024) chunks.
Proof. apply (read_loop_chunks (S (length content)) content []). lia. Qed.

(** ** Absolute names *)

(** X27.  [absfiles] and [absdirectories] put the root path and a separator
    before each element, and [_create_rellist] with the root path takes
    them off again. *)
Theorem absfiles_relative (t : Tree) :
  _create_rellist (absfiles t) (path t) = files t /\
  _create_rellist (absdirectories t) (path t) = elements t.
Proof. split; apply create_rellist_below. Qed.

(** X28.  For a root path that does not end with a separator, the absolute names
    of a [Filetree] just built are the paths that the walk produced, and
    those of a [Dirtree] likewise, up to the order. *)
Theorem init_absolute_names (env : os_env) (path name : string)
    (entries : list (string * node)) :
  Str.endswith "/" (_parse_path_argument (getcwd env) path) = false ->
  resolve env (_parse_path_argument (getcwd env) path) = Some (Dir true entries) ->
  wf_node (Dir true entries) = true ->
  exists tf td tree,
    Filetree_init env path name = inr tf /\
    Dirtree_init env path name = inr td /\
    walk env (_parse_path_argument (getcwd env) path) = inr tree /\
    absfiles tf ≡ₚ _create_abslist tree false /\
    absdirectories td ≡ₚ _create_abslist tree true.
Proof.
  intros Hend Hres Hwf.
  unfold Filetree_init, Dirtree_init, Basetree_init.
  pose proof (parse_path_not_empty (getcwd env) path) as Hne.
  destruct (seperate_path_not_empty _ Hne) as (lp & rd & ->).
  cbn [_abspath].
  rewrite (walk_resolved _ _ _ Hres), (os_listdir_resolved _ _ _ Hres).
  eexists _, _, _. split; [reflexivity|]. split; [reflexivity|].
  split; [reflexivity|].
  unfold absfiles, absdirectories. cbn [_elemlist _abspath set_elements with_class].
  rewrite !(built_elements _ _ _ Hne Hend Hwf).
  rewrite !create_abslist_walk by done.
  unfold sort. split; apply Permutation_map, merge_sort_Permutation.
Qed.

Lemma init_absolute_names_witness :
  exists tf td tree,
    Filetree_init two_roots "/A" "" = inr tf /\
    Dirtree_init two_roots "/A" "" = inr td /\
    walk two_roots "/A" = inr tree /\
    absfiles tf ≡ₚ _create_abslist tree false /\
    absdirectories td ≡ₚ _create_abslist tree true.
Proof.
  apply (init_absolute_names two_roots "/A" "" _ eq_refl eq_refl two_roots_A_wf).
Defined.

(** ** A filtered copy against its original *)

Section FilterCompare.
Context `{Regex}.

(** X29.  Comparing a tree with a copy that [filter] returned: the copy has no
    element that the tree lacks, and the elements that the copy lacks are
    those that the filter rejected. *)
Theorem filter_then_compare_set (t c t' : Tree) (E : string) (regex invert : bool) :
  filter t E false regex invert = (inr (Some c), t') ->
  missing_a (compare_set t c) = [] /\
  forall x, x ∈ missing_b (compare_set t c)
            <-> x ∈ elements t /\ x ∉ elements c.
Proof.
  intros Hf. apply filter_copy_inv in Hf as (filtered & Hloop & _ & ->).
  apply filter_loop_sublist in Hloop as (kept & -> & Hsub).
  unfold compare_set. cbn [elements _elemlist append_filter set_elements app].
  fold (elements t).
  assert (forall x, x ∈ kept -> x ∈ elements t) as Hin
    by (intros x Hx; by eapply elem_of_sublist).
  case_bool_decide as Heq; cbn [missing_a missing_b].
  - split; [done|]. intros x.
    assert (x ∈ elements t <-> x ∈ kept) as Hx
      by (by rewrite <- !(elem_of_list_to_set (C:=gset string)), Heq).
    rewrite elem_of_nil. tauto.
  - split.
    + unfold set_iter. apply elements_empty_iff.
      apply set_equiv. intros x.
      rewrite elem_of_difference, !elem_of_list_to_set.
      split; [intros [Hx Hn]; destruct Hn; by apply Hin | by intros ?%elem_of_empty].
    + intros x. unfold set_iter.
      by rewrite elem_of_elements, elem_of_difference, !elem_of_list_to_set.
Qed.

End FilterCompare.

Lemma filter_then_compare_set_witness :
  missing_a (compare_set (tree_of Filetree_cls "/r" ["a.log"; "b.txt"; "c.log"])
               (mkTree Filetree_cls "" "/r" "/" "/r" ["a.log"; "c.log"] [".*log.*"]))
  = [] /\
  forall x,
    x ∈ missing_b
          (compare_set (tree_of Filetree_cls "/r" ["a.log"; "b.txt"; "c.log"])
             (mkTree Filetree_cls "" "/r" "/" "/r" ["a.log"; "c.log"] [".*log.*"]))
    <-> x ∈ elements (tree_of Filetree_cls "/r" ["a.log"; "b.txt"; "c.log"]) /\
        x ∉ elements
              (mkTree Filetree_cls "" "/r" "/" "/r" ["a.log"; "c.log"] [".*log.*"]).
Proof.
  apply (@filter_then_compare_set PyRe.engine
           (tree_of Filetree_cls "/r" ["a.log"; "b.txt"; "c.log"]) _
           (tree_of Filetree_cls "/r" ["a.log"; "b.txt"; "c.log"])
           "log" false false).
  reflexivity.
Defined.
